(** * Duplicate-check search session (woonstadDuplicateCheck / woonstadBussDuplicateCheck)

    A shallow embedding of the two Lightning Web Component controllers
    [woonstadDuplicateCheck.js] (criteria email, phone, mobile) and
    [woonstadBussDuplicateCheck.js] (criteria companyName, kvkNumber,
    vatNumber, email, phone, mobile).  The two classes are the same code up
    to the list of criteria fields, so the component below keeps the
    criteria as a list in the order of the source's [_signature()].

    The browser's event loop is modelled by explicit state passing: a
    [World] holds the component's fields, a clock, the table of live timers
    with the time each is due, the remote calls that have been issued and
    not yet settled, and the log of events the component dispatched.  Each
    task (a property setter called by the Flow runtime, a timer callback,
    the settlement of the Apex promise, a click) is one [step], and so is
    the passing of time between two tasks.  An [async] method is split at
    its [await]: the part before it runs in the task that calls the method,
    the part after it in the task that settles the promise. *)

From stdpp Require Import gmap list.
From Stdlib Require Import String Ascii NArith ZArith Lia.

Set Warnings "-register-all".

(** ** JavaScript values *)

Module Js.

(** A JavaScript string is a sequence of UTF-16 code units. *)
Definition jsstring : Type := list N.

(** ASCII literals. *)
Definition str (s : string) : jsstring :=
  List.map N_of_ascii (list_ascii_of_string s).

(** The values an Apex response (or a Flow property) can hold.  Numbers
    are never inspected by the controllers beyond their truthiness. *)
Inductive JsVal : Type :=
| JUndefined
| JNull
| JBool (b : bool)
| JNum (n : Z)
| JStr (s : jsstring)
| JArr (elems : list JsVal)
| JObj (props : list (jsstring * JsVal)).

(** [JObj] lists the own enumerable properties in [for ... in] order. *)

Inductive JsError : Type := TypeError.

(** Completion of an expression that can throw. *)
Inductive Completion (A : Type) : Type :=
| Normal (a : A)
| Throw (e : JsError).
Arguments Normal {A} a.
Arguments Throw {A} e.

Definition bind {A B : Type} (m : Completion A) (f : A -> Completion B)
  : Completion B :=
  match m with Normal a => f a | Throw e => Throw e end.

Declare Scope completion_scope.
Delimit Scope completion_scope with completion.
Notation "'let*' x ':=' m 'in' k" := (bind m (fun x => k))
  (at level 10, x name, m at level 100, k at level 200) : completion_scope.

(** ToBoolean. *)
Definition truthy (v : JsVal) : bool :=
  match v with
  | JUndefined | JNull => false
  | JBool b => b
  | JNum n => negb (n =? 0)%Z
  | JStr s => match s with [] => false | _ => true end
  | JArr _ | JObj _ => true
  end.

(** [Array.isArray]. *)
Definition isArray (v : JsVal) : bool :=
  match v with JArr _ => true | _ => false end.

(** [typeof v === 'object'] (true of [null] as well). *)
Definition typeof_object (v : JsVal) : bool :=
  match v with JNull | JArr _ | JObj _ => true | _ => false end.

Definition is_nullish (v : JsVal) : bool :=
  match v with JUndefined | JNull => true | _ => false end.

(** The value of the first binding of [k] among the own properties. *)
Fixpoint get_own (props : list (jsstring * JsVal)) (k : jsstring) : JsVal :=
  match props with
  | [] => JUndefined
  | (k', v) :: ps => if bool_decide (k' = k) then v else get_own ps k
  end.

(** [v.k] and [v[k]]: a TypeError on [undefined] and [null].  On arrays and
    primitives the controllers only ask for names their prototypes do not
    define ([results], [records], [data], [items], [message]). *)
Definition member (v : JsVal) (k : jsstring) : Completion JsVal :=
  match v with
  | JUndefined | JNull => Throw TypeError
  | JObj props => Normal (get_own props k)
  | _ => Normal JUndefined
  end.

(** [v?.k] *)
Definition opt_member (v : JsVal) (k : jsstring) : Completion JsVal :=
  if is_nullish v then Normal JUndefined else member v k.

(** The names a [for (const k in v)] loop visits that pass the
    [hasOwnProperty] test. *)
Definition own_keys (v : JsVal) : list jsstring :=
  match v with JObj props => List.map fst props | _ => [] end.

(** WhiteSpace and LineTerminator code points of ECMAScript, the ones
    [String.prototype.trim] strips. *)
Definition is_ws (c : N) : bool :=
  ((c =? 9) || (c =? 10) || (c =? 11) || (c =? 12) || (c =? 13) || (c =? 32)
   || (c =? 160) || (c =? 5760) || ((8192 <=? c) && (c <=? 8202))
   || (c =? 8232) || (c =? 8233) || (c =? 8239) || (c =? 8287)
   || (c =? 12288) || (c =? 65279))%N.

Fixpoint trim_start (s : jsstring) : jsstring :=
  match s with
  | [] => []
  | c :: s' => if is_ws c then trim_start s' else s
  end.

Definition trim_end (s : jsstring) : jsstring := rev (trim_start (rev s)).

(** [s.trim()] *)
Definition trim (s : jsstring) : jsstring := trim_end (trim_start s).

(** [parts.join(sep)] on an array of strings. *)
Fixpoint join (sep : jsstring) (parts : list jsstring) : jsstring :=
  match parts with
  | [] => []
  | [p] => p
  | p :: ps => p ++ sep ++ join sep ps
  end.

End Js.
Import Js.
Open Scope completion_scope.

(** ** Response extraction *)

(** [resp?.k && Array.isArray(resp.k)] *)
Definition array_at (resp : JsVal) (k : jsstring) : Completion bool :=
  let* v := opt_member resp k in
  if truthy v then let* v' := member resp k in Normal (isArray v')
  else Normal false.

(** The [for (const k in resp)] loop of [_extractArray]: the value of the
    first visited own property that is an array. *)
Fixpoint for_in_first_array (resp : JsVal) (keys : list jsstring)
  : Completion (option JsVal) :=
  match keys with
  | [] => Normal None
  | k :: ks =>
      let* v := member resp k in
      if isArray v then let* v' := member resp k in Normal (Some v')
      else for_in_first_array resp ks
  end.

Definition _extractArray (resp : JsVal) : Completion JsVal :=
  if isArray resp then Normal resp else
  let* c1 := array_at resp (str "results") in
  if c1 then member resp (str "results") else
  let* c2 := array_at resp (str "records") in
  if c2 then member resp (str "records") else
  let* c3 := array_at resp (str "data") in
  if c3 then member resp (str "data") else
  let* c4 := array_at resp (str "items") in
  if c4 then member resp (str "items") else
  if truthy resp && typeof_object resp then
    let* r := for_in_first_array resp (own_keys resp) in
    match r with
    | Some a => Normal a
    | None => Normal (JArr [])
    end
  else Normal (JArr []).

(** ** The component *)

(** Which of the two classes an instance belongs to. *)
Inductive Controller : Type :=
| WoonstadDuplicateCheck
| WoonstadBussDuplicateCheck.

(** Positions of the criteria in [_signature()]. *)
Module Person.
Definition email : nat := 0.
Definition phone : nat := 1.
Definition mobile : nat := 2.
End Person.

Module Business.
Definition companyName : nat := 0.
Definition kvkNumber : nat := 1.
Definition vatNumber : nat := 2.
Definition email : nat := 3.
Definition phone : nat := 4.
Definition mobile : nat := 5.
End Business.

Definition fieldCount (k : Controller) : nat :=
  match k with
  | WoonstadDuplicateCheck => 3
  | WoonstadBussDuplicateCheck => 6
  end.

(** The message of the [catch] branch of [_fetch]. *)
Definition errorMessage (k : Controller) : jsstring :=
  match k with
  | WoonstadDuplicateCheck => str "Er is een fout opgetreden bij het zoeken."
  | WoonstadBussDuplicateCheck =>
      str "Er is een fout opgetreden bij het zoeken naar bedrijfsgegevens."
  end.

(** The fields of the class.  [criteria] holds [_email], [_phone],
    [_mobile] (for the business class the six fields), a timer handle is
    [None] while the field is [undefined]; the handles the browser returns
    are positive integers, hence truthy.  [newCustomerChecked] is
    [newBusinessChecked] in the business class.  The inputs [autoAdvance]
    and [autoAdvanceDelayMs] are declared and never read, and are left
    out. *)
Record Component : Type := {
  availableActions : JsVal;
  criteria : list jsstring;
  selectedExisting : bool;
  selectedAccountId : jsstring;
  rows : list JsVal;
  message : jsstring;
  secondsRemaining : Z;
  loading : bool;
  newCustomerChecked : bool;
  _debounceId : option positive;
  _fetchInFlight : bool;
  _autoNextFired : bool;
  _intervalId : option positive;
  _timeoutId : option positive;
  _hasCompletedFetchWithInputs : bool;
  _needsRefetch : bool;
  _pendingSig : jsstring }.

Definition set_criteria (v : list jsstring) (c : Component) : Component :=
  {| availableActions := availableActions c; criteria := v; selectedExisting
  := selectedExisting c; selectedAccountId := selectedAccountId c; rows :=
  rows c; message := message c; secondsRemaining := secondsRemaining c;
  loading := loading c; newCustomerChecked := newCustomerChecked c;
  _debounceId := _debounceId c; _fetchInFlight := _fetchInFlight c;
  _autoNextFired := _autoNextFired c; _intervalId := _intervalId c; _timeoutId
  := _timeoutId c; _hasCompletedFetchWithInputs :=
  _hasCompletedFetchWithInputs c; _needsRefetch := _needsRefetch c;
  _pendingSig := _pendingSig c |}.

Definition set_selectedExisting (v : bool) (c : Component) : Component :=
  {| availableActions := availableActions c; criteria := criteria c;
  selectedExisting := v; selectedAccountId := selectedAccountId c; rows :=
  rows c; message := message c; secondsRemaining := secondsRemaining c;
  loading := loading c; newCustomerChecked := newCustomerChecked c;
  _debounceId := _debounceId c; _fetchInFlight := _fetchInFlight c;
  _autoNextFired := _autoNextFired c; _intervalId := _intervalId c; _timeoutId
  := _timeoutId c; _hasCompletedFetchWithInputs :=
  _hasCompletedFetchWithInputs c; _needsRefetch := _needsRefetch c;
  _pendingSig := _pendingSig c |}.

Definition set_selectedAccountId (v : jsstring) (c : Component) : Component :=
  {| availableActions := availableActions c; criteria := criteria c;
  selectedExisting := selectedExisting c; selectedAccountId := v; rows := rows
  c; message := message c; secondsRemaining := secondsRemaining c; loading :=
  loading c; newCustomerChecked := newCustomerChecked c; _debounceId :=
  _debounceId c; _fetchInFlight := _fetchInFlight c; _autoNextFired :=
  _autoNextFired c; _intervalId := _intervalId c; _timeoutId := _timeoutId c;
  _hasCompletedFetchWithInputs := _hasCompletedFetchWithInputs c;
  _needsRefetch := _needsRefetch c; _pendingSig := _pendingSig c |}.

Definition set_rows (v : list JsVal) (c : Component) : Component :=
  {| availableActions := availableActions c; criteria := criteria c;
  selectedExisting := selectedExisting c; selectedAccountId :=
  selectedAccountId c; rows := v; message := message c; secondsRemaining :=
  secondsRemaining c; loading := loading c; newCustomerChecked :=
  newCustomerChecked c; _debounceId := _debounceId c; _fetchInFlight :=
  _fetchInFlight c; _autoNextFired := _autoNextFired c; _intervalId :=
  _intervalId c; _timeoutId := _timeoutId c; _hasCompletedFetchWithInputs :=
  _hasCompletedFetchWithInputs c; _needsRefetch := _needsRefetch c;
  _pendingSig := _pendingSig c |}.

Definition set_message (v : jsstring) (c : Component) : Component :=
  {| availableActions := availableActions c; criteria := criteria c;
  selectedExisting := selectedExisting c; selectedAccountId :=
  selectedAccountId c; rows := rows c; message := v; secondsRemaining :=
  secondsRemaining c; loading := loading c; newCustomerChecked :=
  newCustomerChecked c; _debounceId := _debounceId c; _fetchInFlight :=
  _fetchInFlight c; _autoNextFired := _autoNextFired c; _intervalId :=
  _intervalId c; _timeoutId := _timeoutId c; _hasCompletedFetchWithInputs :=
  _hasCompletedFetchWithInputs c; _needsRefetch := _needsRefetch c;
  _pendingSig := _pendingSig c |}.

Definition set_secondsRemaining (v : Z) (c : Component) : Component :=
  {| availableActions := availableActions c; criteria := criteria c;
  selectedExisting := selectedExisting c; selectedAccountId :=
  selectedAccountId c; rows := rows c; message := message c; secondsRemaining
  := v; loading := loading c; newCustomerChecked := newCustomerChecked c;
  _debounceId := _debounceId c; _fetchInFlight := _fetchInFlight c;
  _autoNextFired := _autoNextFired c; _intervalId := _intervalId c; _timeoutId
  := _timeoutId c; _hasCompletedFetchWithInputs :=
  _hasCompletedFetchWithInputs c; _needsRefetch := _needsRefetch c;
  _pendingSig := _pendingSig c |}.

Definition set_loading (v : bool) (c : Component) : Component :=
  {| availableActions := availableActions c; criteria := criteria c;
  selectedExisting := selectedExisting c; selectedAccountId :=
  selectedAccountId c; rows := rows c; message := message c; secondsRemaining
  := secondsRemaining c; loading := v; newCustomerChecked :=
  newCustomerChecked c; _debounceId := _debounceId c; _fetchInFlight :=
  _fetchInFlight c; _autoNextFired := _autoNextFired c; _intervalId :=
  _intervalId c; _timeoutId := _timeoutId c; _hasCompletedFetchWithInputs :=
  _hasCompletedFetchWithInputs c; _needsRefetch := _needsRefetch c;
  _pendingSig := _pendingSig c |}.

Definition set_newCustomerChecked (v : bool) (c : Component) : Component :=
  {| availableActions := availableActions c; criteria := criteria c;
  selectedExisting := selectedExisting c; selectedAccountId :=
  selectedAccountId c; rows := rows c; message := message c; secondsRemaining
  := secondsRemaining c; loading := loading c; newCustomerChecked := v;
  _debounceId := _debounceId c; _fetchInFlight := _fetchInFlight c;
  _autoNextFired := _autoNextFired c; _intervalId := _intervalId c; _timeoutId
  := _timeoutId c; _hasCompletedFetchWithInputs :=
  _hasCompletedFetchWithInputs c; _needsRefetch := _needsRefetch c;
  _pendingSig := _pendingSig c |}.

Definition set__debounceId (v : option positive) (c : Component) : Component :=
  {| availableActions := availableActions c; criteria := criteria c;
  selectedExisting := selectedExisting c; selectedAccountId :=
  selectedAccountId c; rows := rows c; message := message c; secondsRemaining
  := secondsRemaining c; loading := loading c; newCustomerChecked :=
  newCustomerChecked c; _debounceId := v; _fetchInFlight := _fetchInFlight c;
  _autoNextFired := _autoNextFired c; _intervalId := _intervalId c; _timeoutId
  := _timeoutId c; _hasCompletedFetchWithInputs :=
  _hasCompletedFetchWithInputs c; _needsRefetch := _needsRefetch c;
  _pendingSig := _pendingSig c |}.

Definition set__fetchInFlight (v : bool) (c : Component) : Component :=
  {| availableActions := availableActions c; criteria := criteria c;
  selectedExisting := selectedExisting c; selectedAccountId :=
  selectedAccountId c; rows := rows c; message := message c; secondsRemaining
  := secondsRemaining c; loading := loading c; newCustomerChecked :=
  newCustomerChecked c; _debounceId := _debounceId c; _fetchInFlight := v;
  _autoNextFired := _autoNextFired c; _intervalId := _intervalId c; _timeoutId
  := _timeoutId c; _hasCompletedFetchWithInputs :=
  _hasCompletedFetchWithInputs c; _needsRefetch := _needsRefetch c;
  _pendingSig := _pendingSig c |}.

Definition set__autoNextFired (v : bool) (c : Component) : Component :=
  {| availableActions := availableActions c; criteria := criteria c;
  selectedExisting := selectedExisting c; selectedAccountId :=
  selectedAccountId c; rows := rows c; message := message c; secondsRemaining
  := secondsRemaining c; loading := loading c; newCustomerChecked :=
  newCustomerChecked c; _debounceId := _debounceId c; _fetchInFlight :=
  _fetchInFlight c; _autoNextFired := v; _intervalId := _intervalId c;
  _timeoutId := _timeoutId c; _hasCompletedFetchWithInputs :=
  _hasCompletedFetchWithInputs c; _needsRefetch := _needsRefetch c;
  _pendingSig := _pendingSig c |}.

Definition set__intervalId (v : option positive) (c : Component) : Component :=
  {| availableActions := availableActions c; criteria := criteria c;
  selectedExisting := selectedExisting c; selectedAccountId :=
  selectedAccountId c; rows := rows c; message := message c; secondsRemaining
  := secondsRemaining c; loading := loading c; newCustomerChecked :=
  newCustomerChecked c; _debounceId := _debounceId c; _fetchInFlight :=
  _fetchInFlight c; _autoNextFired := _autoNextFired c; _intervalId := v;
  _timeoutId := _timeoutId c; _hasCompletedFetchWithInputs :=
  _hasCompletedFetchWithInputs c; _needsRefetch := _needsRefetch c;
  _pendingSig := _pendingSig c |}.

Definition set__timeoutId (v : option positive) (c : Component) : Component :=
  {| availableActions := availableActions c; criteria := criteria c;
  selectedExisting := selectedExisting c; selectedAccountId :=
  selectedAccountId c; rows := rows c; message := message c; secondsRemaining
  := secondsRemaining c; loading := loading c; newCustomerChecked :=
  newCustomerChecked c; _debounceId := _debounceId c; _fetchInFlight :=
  _fetchInFlight c; _autoNextFired := _autoNextFired c; _intervalId :=
  _intervalId c; _timeoutId := v; _hasCompletedFetchWithInputs :=
  _hasCompletedFetchWithInputs c; _needsRefetch := _needsRefetch c;
  _pendingSig := _pendingSig c |}.

Definition set__hasCompletedFetchWithInputs (v : bool) (c : Component) : Component :=
  {| availableActions := availableActions c; criteria := criteria c;
  selectedExisting := selectedExisting c; selectedAccountId :=
  selectedAccountId c; rows := rows c; message := message c; secondsRemaining
  := secondsRemaining c; loading := loading c; newCustomerChecked :=
  newCustomerChecked c; _debounceId := _debounceId c; _fetchInFlight :=
  _fetchInFlight c; _autoNextFired := _autoNextFired c; _intervalId :=
  _intervalId c; _timeoutId := _timeoutId c; _hasCompletedFetchWithInputs :=
  v; _needsRefetch := _needsRefetch c; _pendingSig := _pendingSig c |}.

Definition set__needsRefetch (v : bool) (c : Component) : Component :=
  {| availableActions := availableActions c; criteria := criteria c;
  selectedExisting := selectedExisting c; selectedAccountId :=
  selectedAccountId c; rows := rows c; message := message c; secondsRemaining
  := secondsRemaining c; loading := loading c; newCustomerChecked :=
  newCustomerChecked c; _debounceId := _debounceId c; _fetchInFlight :=
  _fetchInFlight c; _autoNextFired := _autoNextFired c; _intervalId :=
  _intervalId c; _timeoutId := _timeoutId c; _hasCompletedFetchWithInputs :=
  _hasCompletedFetchWithInputs c; _needsRefetch := v; _pendingSig :=
  _pendingSig c |}.

Definition set__pendingSig (v : jsstring) (c : Component) : Component :=
  {| availableActions := availableActions c; criteria := criteria c;
  selectedExisting := selectedExisting c; selectedAccountId :=
  selectedAccountId c; rows := rows c; message := message c; secondsRemaining
  := secondsRemaining c; loading := loading c; newCustomerChecked :=
  newCustomerChecked c; _debounceId := _debounceId c; _fetchInFlight :=
  _fetchInFlight c; _autoNextFired := _autoNextFired c; _intervalId :=
  _intervalId c; _timeoutId := _timeoutId c; _hasCompletedFetchWithInputs :=
  _hasCompletedFetchWithInputs c; _needsRefetch := _needsRefetch c;
  _pendingSig := v |}.

(** ** The world around the component *)

(** What a timer runs when it fires: the arrow functions passed to
    [setTimeout] and [setInterval]. *)
Inductive Callback : Type :=
| CbFetch (sig : jsstring)   (* () => this._fetch(sig) *)
| CbTick                     (* () => { if (secondsRemaining > 0) secondsRemaining -= 1 } *)
| CbTryNext.                 (* () => { this._tryNext() } *)

(** A live timer, with the earliest time (ms on the session clock) at
    which the event loop may run its callback. *)
Inductive Timer : Type :=
| Timeout (due : Z) (cb : Callback)
| Interval (periodMs : Z) (due : Z) (cb : Callback).

Inductive FlowEvent : Type :=
| FlowAttributeChangeEvent (name : jsstring) (value : JsVal)
| FlowNavigationNextEvent.

Record World : Type := {
  controller : Controller;
  cmp : Component;
  (** the session clock, in ms *)
  now : Z;
  (** live timers, by handle *)
  timers : gmap positive Timer;
  next_timer : positive;
  (** remote calls issued and not yet settled, with their parameters *)
  outstanding : gmap positive (list jsstring);
  next_call : positive;
  (** parameters of every remote call issued so far, oldest first *)
  calls : list (list jsstring);
  (** events passed to [dispatchEvent], oldest first *)
  dispatched : list FlowEvent }.

Definition with_cmp (f : Component -> Component) (w : World) : World :=
  {| controller := controller w; cmp := f (cmp w); now := now w;
     timers := timers w; next_timer := next_timer w;
     outstanding := outstanding w; next_call := next_call w;
     calls := calls w; dispatched := dispatched w |}.

(** A new timer under a fresh handle. *)
Definition addTimer (t : Timer) (w : World) : positive * World :=
  (next_timer w,
   {| controller := controller w; cmp := cmp w; now := now w;
      timers := <[next_timer w := t]> (timers w);
      next_timer := Pos.succ (next_timer w); outstanding := outstanding w;
      next_call := next_call w; calls := calls w; dispatched := dispatched w |}).

(** [setTimeout(cb, delayMs)] *)
Definition setTimeout (cb : Callback) (delayMs : Z) (w : World)
  : positive * World :=
  addTimer (Timeout (now w + delayMs) cb) w.

(** [window.setInterval(cb, periodMs)] *)
Definition setInterval (cb : Callback) (periodMs : Z) (w : World)
  : positive * World :=
  addTimer (Interval periodMs (now w + periodMs) cb) w.

(** [clearTimeout] / [clearInterval]: no effect on a handle that is not
    live. *)
Definition clearTimer (id : positive) (w : World) : World :=
  {| controller := controller w; cmp := cmp w; now := now w;
     timers := delete id (timers w); next_timer := next_timer w;
     outstanding := outstanding w; next_call := next_call w;
     calls := calls w; dispatched := dispatched w |}.

(** An interval that has run is due again one period later. *)
Definition rearmTimer (id : positive) (w : World) : World :=
  match timers w !! id with
  | Some (Interval period _ cb) =>
      {| controller := controller w; cmp := cmp w; now := now w;
         timers := <[id := Interval period (now w + period) cb]> (timers w);
         next_timer := next_timer w; outstanding := outstanding w;
         next_call := next_call w; calls := calls w;
         dispatched := dispatched w |}
  | _ => w
  end.

(** Time passes. *)
Definition elapse (ms : Z) (w : World) : World :=
  {| controller := controller w; cmp := cmp w; now := now w + ms;
     timers := timers w; next_timer := next_timer w;
     outstanding := outstanding w; next_call := next_call w;
     calls := calls w; dispatched := dispatched w |}.

(** The imperative Apex call: the request leaves, the promise is pending. *)
Definition callApex (params : list jsstring) (w : World) : World :=
  {| controller := controller w; cmp := cmp w; now := now w;
     timers := timers w; next_timer := next_timer w;
     outstanding := <[next_call w := params]> (outstanding w);
     next_call := Pos.succ (next_call w); calls := calls w ++ [params];
     dispatched := dispatched w |}.

(** The promise of call [call] settles. *)
Definition settle (call : positive) (w : World) : World :=
  {| controller := controller w; cmp := cmp w; now := now w;
     timers := timers w; next_timer := next_timer w;
     outstanding := delete call (outstanding w);
     next_call := next_call w; calls := calls w; dispatched := dispatched w |}.

Definition dispatchEvent (e : FlowEvent) (w : World) : World :=
  {| controller := controller w; cmp := cmp w; now := now w;
     timers := timers w; next_timer := next_timer w;
     outstanding := outstanding w; next_call := next_call w;
     calls := calls w; dispatched := dispatched w ++ [e] |}.

(** ** Computed properties *)

(** [get hasRows()] *)
Definition hasRows (c : Component) : bool :=
  match rows c with [] => false | _ => true end.

(** [get showEmptyState()] *)
Definition showEmptyState (c : Component) : bool :=
  negb (hasRows c) && negb (loading c) && _hasCompletedFetchWithInputs c
  && negb (_needsRefetch c).

(** [get isCreateBtnDisabled()] *)
Definition isCreateBtnDisabled (c : Component) : bool :=
  negb (newCustomerChecked c).

Definition is_str (s : jsstring) (v : JsVal) : bool :=
  match v with JStr t => bool_decide (t = s) | _ => false end.

(** [Array.isArray(this.availableActions) &&
     this.availableActions.includes('NEXT')] *)
Definition canNext (c : Component) : bool :=
  match availableActions c with
  | JArr l => existsb (is_str (str "NEXT")) l
  | _ => false
  end.

Definition nonempty (s : jsstring) : bool :=
  match s with [] => false | _ => true end.

(** [!!(this._email || this._phone || this._mobile)] *)
Definition _hasAnyInput (c : Component) : bool := existsb nonempty (criteria c).

(** [[this._email, this._phone, this._mobile].join('|')] *)
Definition _signature (c : Component) : jsstring := join (str "|") (criteria c).

(** ** Timers and the transition gate *)

Definition _clearTimers (w : World) : World :=
  let w1 := match _intervalId (cmp w) with
            | Some i => clearTimer i w
            | None => w
            end in
  let w2 := match _timeoutId (cmp w1) with
            | Some t => clearTimer t w1
            | None => w1
            end in
  with_cmp (fun c => set__timeoutId None (set__intervalId None c)) w2.

Definition _tryNext (w : World) : World :=
  if _autoNextFired (cmp w) then w else
  if negb (canNext (cmp w)) then _clearTimers w else
  let w1 := with_cmp (set__autoNextFired true) w in
  let w2 := _clearTimers w1 in
  dispatchEvent FlowNavigationNextEvent w2.

Definition _startCountdownAndAutoNext (seconds : Z) (w : World) : World :=
  if negb (_hasCompletedFetchWithInputs (cmp w)) || _needsRefetch (cmp w)
  then w else
  let w1 := _clearTimers w in
  if negb (canNext (cmp w1)) then w1 else
  let w2 := with_cmp (set_secondsRemaining seconds) w1 in
  let '(i, w3) := setInterval CbTick 1000 w2 in
  let w4 := with_cmp (set__intervalId (Some i)) w3 in
  let '(t, w5) := setTimeout CbTryNext (seconds * 1000) w4 in
  with_cmp (set__timeoutId (Some t)) w5.

(** ** Fetch control *)

(** [x || ''] on a string *)
Definition or_empty (s : jsstring) : jsstring :=
  match s with [] => [] | _ => s end.

(** [_fetch(sig)] up to its [await]: the guard, the flags, the parameter
    object (in the order of the criteria) and the Apex call. *)
Definition _fetch (sig : jsstring) (w : World) : World :=
  if _fetchInFlight (cmp w) then w else
  let w1 := with_cmp (fun c => set_loading true (set__fetchInFlight true c)) w in
  let w2 := _clearTimers w1 in
  let params := List.map or_empty (criteria (cmp w2)) in
  callApex params w2.

(** The block guarded by [if (this._needsRefetch)], in both branches:
    the latch is taken and cleared and [_fetch(againSig)] is called, which
    runs up to its own [await]. *)
Definition refetch (w : World) : World :=
  let againSig := _pendingSig (cmp w) in
  let w1 := with_cmp (fun c => set__fetchInFlight false
                        (set__pendingSig [] (set__needsRefetch false c))) w in
  _fetch againSig w1.

(** The [catch (e)] block. *)
Definition fetch_catch (w : World) : World :=
  let w1 := with_cmp (fun c =>
              set_loading false (set__hasCompletedFetchWithInputs true
                (set_message (errorMessage (controller w)) (set_rows [] c)))) w in
  if _needsRefetch (cmp w1) then refetch w1
  else _startCountdownAndAutoNext 5 w1.

(** [(resp && typeof resp.message === 'string') ? resp.message : ''] *)
Definition message_of (resp : JsVal) : Completion jsstring :=
  if truthy resp then
    let* m := member resp (str "message") in
    match m with
    | JStr _ => let* m' := member resp (str "message") in
                Normal (match m' with JStr s => s | _ => [] end)
    | _ => Normal []
    end
  else Normal [].

(** The outcome of the awaited promise. *)
Inductive Outcome : Type :=
| Resolved (resp : JsVal)
| Rejected.

(** [_fetch] from its [await] on: the rest of the [try] block, the
    [catch] block when the promise rejected or a statement of the [try]
    block threw, and the [finally] block, which runs last on every path,
    also after [return this._fetch(againSig)] has started the next call. *)
Definition fetch_resume (o : Outcome) (w : World) : World :=
  let w' :=
    match o with
    | Rejected => fetch_catch w
    | Resolved resp =>
        match _extractArray resp with
        | Throw _ => fetch_catch w
        | Normal results =>
            let w1 := with_cmp (set_rows (match results with
                                          | JArr l => l
                                          | _ => []
                                          end)) w in
            match message_of resp with
            | Throw _ => fetch_catch w1
            | Normal m =>
                let w2 := with_cmp (fun c =>
                            set_loading false
                              (set__hasCompletedFetchWithInputs true
                                 (set_message m c))) w1 in
                if hasRows (cmp w2) then _clearTimers w2
                else if _needsRefetch (cmp w2) then refetch w2
                else _startCountdownAndAutoNext 5 w2
            end
        end
    end in
  with_cmp (set__fetchInFlight false) w'.

Definition _scheduleFetch (delayMs : Z) (w : World) : World :=
  if negb (_hasAnyInput (cmp w)) then w else
  if _fetchInFlight (cmp w) then
    with_cmp (fun c => set__pendingSig (_signature c) (set__needsRefetch true c)) w
  else
    let w1 := match _debounceId (cmp w) with
              | Some d => clearTimer d w
              | None => w
              end in
    let sig := _signature (cmp w1) in
    let '(d, w2) := setTimeout (CbFetch sig) delayMs w1 in
    with_cmp (set__debounceId (Some d)) w2.

(** ** Property setters *)

(** What the Flow runtime assigns to a text input property. *)
Inductive FlowInput : Type :=
| FUndefined
| FNull
| FString (s : jsstring).

(** [(v || '').toString()] *)
Definition or_empty_string (v : FlowInput) : jsstring :=
  match v with
  | FString s => s
  | FUndefined | FNull => []
  end.

(** [(v || '').toString().trim()] *)
Definition normalize (v : FlowInput) : jsstring := trim (or_empty_string v).

(** [set email(v) { this._email = ...; this._scheduleFetch(); }] and its
    siblings; [i] is the position of the field among the criteria. *)
Definition set_criterion (i : nat) (v : FlowInput) (w : World) : World :=
  _scheduleFetch 100
    (with_cmp (fun c => set_criteria (<[i := normalize v]> (criteria c)) c) w).

(** ** UI handlers *)

(** [handleRowClick]; [id] is [evt?.currentTarget?.dataset?.id]. *)
Definition handleRowClick (id : option jsstring) (w : World) : World :=
  match id with
  | None | Some [] => w
  | Some id =>
      let w1 := with_cmp (fun c => set_selectedAccountId id
                            (set_selectedExisting true c)) w in
      let w2 := dispatchEvent
                  (FlowAttributeChangeEvent (str "selectedExisting") (JBool true)) w1 in
      let w3 := dispatchEvent
                  (FlowAttributeChangeEvent (str "selectedAccountId") (JStr id)) w2 in
      _tryNext (_clearTimers w3)
  end.

(** [handleRowKeydown]; [key] is [evt?.key]. *)
Definition handleRowKeydown (key : option jsstring) (id : option jsstring)
  (w : World) : World :=
  match key with
  | Some k =>
      if bool_decide (k = str "Enter") || bool_decide (k = str " ")
      then handleRowClick id w else w
  | None => w
  end.

(** [handleNewCustomerCheckbox]; [checked] is [!!evt?.target?.checked]. *)
Definition handleNewCustomerCheckbox (checked : bool) (w : World) : World :=
  let w1 := with_cmp (set_newCustomerChecked checked) w in
  if newCustomerChecked (cmp w1) then
    let w2 := with_cmp (fun c => set_selectedAccountId []
                          (set_selectedExisting false c)) w1 in
    let w3 := dispatchEvent
                (FlowAttributeChangeEvent (str "selectedExisting") (JBool false)) w2 in
    dispatchEvent
      (FlowAttributeChangeEvent (str "selectedAccountId") (JStr [])) w3
  else w1.

Definition handleNext (w : World) : World :=
  if isCreateBtnDisabled (cmp w) then w else _tryNext (_clearTimers w).

(** ** The event loop *)

Definition run_callback (cb : Callback) (w : World) : World :=
  match cb with
  | CbFetch sig => _fetch sig w
  | CbTick =>
      if (secondsRemaining (cmp w) >? 0)%Z
      then with_cmp (fun c => set_secondsRemaining (secondsRemaining c - 1) c) w
      else w
  | CbTryNext => _tryNext w
  end.

(** One task of the event loop, or the passing of time between two
    tasks. *)
Inductive Input : Type :=
| Elapse (ms : Z)
| SetCriterion (i : nat) (v : FlowInput)
| TimerFires (id : positive)
| CallSettles (call : positive) (o : Outcome)
| RowClick (id : option jsstring)
| RowKeydown (key : option jsstring) (id : option jsstring)
| NewCustomerCheckbox (checked : bool)
| NextClick.

(** The event loop runs the callback of the timer [id]: not if the timer
    is not live, and not before it is due.  A timeout leaves the table
    before its callback runs; an interval that is still live after its
    callback is armed again. *)
Definition fire (id : positive) (w : World) : World :=
  match timers w !! id with
  | Some (Timeout due cb) =>
      if (due <=? now w)%Z then run_callback cb (clearTimer id w) else w
  | Some (Interval _ due cb) =>
      if (due <=? now w)%Z then rearmTimer id (run_callback cb w) else w
  | None => w
  end.

(** A call that is not outstanding does not settle; time does not run
    backwards. *)
Definition step (e : Input) (w : World) : World :=
  match e with
  | Elapse ms => if (0 <=? ms)%Z then elapse ms w else w
  | SetCriterion i v => set_criterion i v w
  | TimerFires id => fire id w
  | CallSettles call o =>
      match outstanding w !! call with
      | Some _ => fetch_resume o (settle call w)
      | None => w
      end
  | RowClick id => handleRowClick id w
  | RowKeydown key id => handleRowKeydown key id w
  | NewCustomerCheckbox checked => handleNewCustomerCheckbox checked w
  | NextClick => handleNext w
  end.

Definition run (es : list Input) (w : World) : World :=
  fold_left (fun w e => step e w) es w.

(** A fresh instance: the field initialisers of the class, with the
    [availableActions] the Flow runtime passes in. *)
Definition init_component (k : Controller) (actions : JsVal) : Component :=
  {| availableActions := actions;
     criteria := replicate (fieldCount k) [];
     selectedExisting := false; selectedAccountId := [];
     rows := []; message := []; secondsRemaining := 5; loading := false;
     newCustomerChecked := false;
     _debounceId := None; _fetchInFlight := false; _autoNextFired := false;
     _intervalId := None; _timeoutId := None;
     _hasCompletedFetchWithInputs := false;
     _needsRefetch := false; _pendingSig := [] |}.

Definition init (k : Controller) (actions : JsVal) : World :=
  {| controller := k; cmp := init_component k actions; now := 0;
     timers := ∅; next_timer := 1%positive;
     outstanding := ∅; next_call := 1%positive;
     calls := []; dispatched := [] |}.

Definition reachable (w : World) : Prop :=
  exists k actions es, w = run es (init k actions).

(** Number of workflow-advance signals dispatched so far. *)
Definition is_advance (e : FlowEvent) : bool :=
  match e with FlowNavigationNextEvent => true | _ => false end.

Definition advance_count (w : World) : nat :=
  List.length (List.filter is_advance (dispatched w)).

(** ** Specification-side definitions *)

(** The extraction as the interface description words it: a bare sequence,
    else the first sequence under the ordered candidate keys, else the
    first property of the response whose value is a sequence. *)
Definition candidate_keys : list jsstring :=
  [str "results"; str "records"; str "data"; str "items"].

Fixpoint first_candidate_array (props : list (jsstring * JsVal))
  (keys : list jsstring) : option (list JsVal) :=
  match keys with
  | [] => None
  | k :: ks =>
      match get_own props k with
      | JArr l => Some l
      | _ => first_candidate_array props ks
      end
  end.

Fixpoint first_array_property (props : list (jsstring * JsVal))
  : option (list JsVal) :=
  match props with
  | [] => None
  | (_, JArr l) :: _ => Some l
  | _ :: ps => first_array_property ps
  end.

Definition extract_spec (resp : JsVal) : list JsVal :=
  match resp with
  | JArr l => l
  | JObj props =>
      match first_candidate_array props candidate_keys with
      | Some l => l
      | None =>
          match first_array_property props with
          | Some l => l
          | None => []
          end
      end
  | _ => []
  end.

(** The property names of an object are pairwise distinct. *)
Definition unique_keys (resp : JsVal) : Prop :=
  match resp with
  | JObj props => NoDup (List.map fst props)
  | _ => True
  end.

(** No array can be extracted from [resp]: it is not an array and, when it
    is an object, none of its properties holds one. *)
Definition no_array_inside (resp : JsVal) : Prop :=
  match resp with
  | JArr _ => False
  | JObj props => Forall (fun kv => isArray (snd kv) = false) props
  | _ => True
  end.

(** A string with no white space at either end. *)
Definition head_ws (s : jsstring) : bool :=
  match s with c :: _ => is_ws c | [] => false end.

Definition trimmed (s : jsstring) : bool :=
  negb (head_ws s) && negb (head_ws (rev s)).

(** A string of white space only (the empty string included). *)
Definition blank (s : jsstring) : bool := forallb is_ws s.

(** The text a value stands for: [undefined] and [null] stand for the
    empty string. *)
Definition text_of (v : FlowInput) : jsstring :=
  match v with
  | FUndefined | FNull => []
  | FString s => s
  end.

(** [stored] is [s] without the white space around it: [s] is [stored]
    between a run of white space on each side, and [stored] neither starts
    nor ends with white space. *)
Definition stripped (s stored : jsstring) : Prop :=
  trimmed stored = true
  /\ exists l r, s = l ++ stored ++ r /\ blank l = true /\ blank r = true.

(** Every live timer is fresh w.r.t. the handle counter and is the one its
    handle field names: the debounce timeout by [_debounceId], the tick
    interval by [_intervalId], the expiry timeout by [_timeoutId]. *)
Definition tracked (c : Component) (id : positive) (t : Timer) : Prop :=
  match t with
  | Timeout _ (CbFetch _) => _debounceId c = Some id
  | Interval _ _ CbTick => _intervalId c = Some id
  | Timeout _ CbTryNext => _timeoutId c = Some id
  | _ => False
  end.

Record wf (w : World) : Prop := {
  wf_fresh : forall id t, timers w !! id = Some t -> (id < next_timer w)%positive;
  wf_tracked : forall id t, timers w !! id = Some t -> tracked (cmp w) id t }.

Definition is_debounce (t : Timer) : bool :=
  match t with Timeout _ (CbFetch _) => true | _ => false end.

Definition is_countdown (t : Timer) : bool :=
  match t with
  | Interval _ _ CbTick | Timeout _ CbTryNext => true
  | _ => false
  end.

(** What a settled call leaves in [rows] and [message]. *)
Definition settled_rows (o : Outcome) : list JsVal :=
  match o with
  | Rejected => []
  | Resolved resp =>
      match _extractArray resp with
      | Normal (JArr l) => l
      | _ => []
      end
  end.

Definition settled_message (k : Controller) (o : Outcome) : jsstring :=
  match o with
  | Rejected => errorMessage k
  | Resolved resp =>
      match message_of resp with
      | Normal m => m
      | Throw _ => errorMessage k
      end
  end.

(** The control flow after the fields have been stored, common to the
    [try] and the [catch] branch. *)
Definition after_settle (w : World) : World :=
  if hasRows (cmp w) then _clearTimers w
  else if _needsRefetch (cmp w) then refetch w
  else _startCountdownAndAutoNext 5 w.

(** The three call sites of [_tryNext]: the expiry callback of the
    countdown, the row-selection handler and the handler of the advance
    button. *)
Inductive AdvanceRequest : Type :=
| ByExpiry
| ByRowClick (id : jsstring)
| ByAdvanceButton.

Definition request (r : AdvanceRequest) (w : World) : World :=
  match r with
  | ByExpiry => run_callback CbTryNext w
  | ByRowClick id => handleRowClick (Some id) w
  | ByAdvanceButton => handleNext w
  end.

Definition requests (rs : list AdvanceRequest) (w : World) : World :=
  fold_left (fun w r => request r w) rs w.

(** The request gets as far as [_tryNext]: the clicked row carries an id,
    the advance button is enabled by the checkbox. *)
Definition reaches_gate (w : World) (r : AdvanceRequest) : bool :=
  match r with
  | ByExpiry => true
  | ByRowClick id => nonempty id
  | ByAdvanceButton => newCustomerChecked (cmp w)
  end.

(** The gate's bookkeeping: one signal has been sent exactly when
    [_autoNextFired] is set. *)
Definition gate_inv (w : World) : Prop :=
  advance_count w = if _autoNextFired (cmp w) then 1%nat else 0%nat.

(** *** The debounced dispatcher, as specified *)

(** A call of a criteria setter, and the time that passes after it until
    the next one. *)
Record Call : Type := {
  field : nat;
  value : FlowInput;
  gap : Z }.

(** The event loop gets the chance to run the debounce timer. *)
Definition try_debounce (w : World) : World :=
  match _debounceId (cmp w) with
  | Some d => fire d w
  | None => w
  end.

(** The call, the time after it, and the debounce timer's chance to fire. *)
Definition call_then_wait (c : Call) (w : World) : World :=
  try_debounce (step (Elapse (gap c)) (set_criterion (field c) (value c) w)).

(** [d] is the one live debounce timer; it is due 100 ms from now and
    carries the current signature. *)
Definition sole_debounce (w : World) (d : positive) : Prop :=
  _debounceId (cmp w) = Some d
  /\ timers w !! d = Some (Timeout (now w + 100) (CbFetch (_signature (cmp w))))
  /\ forall d' t, timers w !! d' = Some t -> is_debounce t = true -> d' = d.

(** Going from [wb] to [wa] cancelled every debounce timer that had not
    fired and installed a new one. *)
Definition replaces_debounce (wb wa : World) : Prop :=
  (forall d t, timers wb !! d = Some t -> is_debounce t = true ->
               timers wa !! d = None)
  /\ exists d', sole_debounce wa d'.

(** After the last call of the burst, made in [w] (the burst began in
    [w0]): nothing has been sent since [w0]; the one debounce timer does
    not fire while less than 100 ms have passed; when it fires after the
    quiet time [quiet] it sends one lookup, with the criteria of the last
    call, and no debounce timer is left. *)
Definition one_call_for_burst (w0 w : World) (quiet : Z) : Prop :=
  calls w = calls w0
  /\ exists d,
       sole_debounce w d
       /\ (forall ms, (0 <= ms < 100)%Z ->
                      fire d (step (Elapse ms) w) = step (Elapse ms) w)
       /\ calls (fire d (step (Elapse quiet) w)) = calls w0 ++ [criteria (cmp w)]
       /\ forall d' t, timers (fire d (step (Elapse quiet) w)) !! d' = Some t ->
                       is_debounce t = false.

(** The burst that began in [w0] continues in [w]: each call cancels and
    replaces the debounce timer, and one lookup is sent for the burst. *)
Fixpoint burst_from (w0 w : World) (burst : list Call) : Prop :=
  match burst with
  | [] => True
  | c :: rest =>
      replaces_debounce w (set_criterion (field c) (value c) w)
      /\ match rest with
         | [] => one_call_for_burst w0 (set_criterion (field c) (value c) w) (gap c)
         | _ :: _ => burst_from w0 (call_then_wait c w) rest
         end
  end.

Definition burst_claim (w : World) (burst : list Call) : Prop :=
  burst_from w w burst.

(** The calls of the burst follow each other within the quiet period of
    100 ms; the quiet period passes after the last one. *)
Fixpoint within_quiet_period (burst : list Call) : bool :=
  match burst with
  | [] => true
  | c :: rest =>
      match rest with
      | [] => (100 <=? gap c)%Z
      | _ :: _ => (0 <=? gap c)%Z && (gap c <? 100)%Z && within_quiet_period rest
      end
  end.

(** Every call of the burst leaves at least one criterion non-empty. *)
Fixpoint leaves_input (crit : list jsstring) (burst : list Call) : bool :=
  match burst with
  | [] => true
  | c :: rest =>
      existsb nonempty (<[field c := normalize (value c)]> crit)
      && leaves_input (<[field c := normalize (value c)]> crit) rest
  end.

(** When the setter call [i := v] leaves all criteria empty, no debounce
    timer and no countdown timer is live after it, and no timer that fires
    later sends a lookup. *)
Definition cleared_claim (w : World) (i : nat) (v : FlowInput) : Prop :=
  let w' := set_criterion i v w in
  _hasAnyInput (cmp w') = false ->
  (forall d t, timers w' !! d = Some t ->
               is_debounce t = false /\ is_countdown t = false)
  /\ (forall ms d, calls (run [Elapse ms; TimerFires d] w') = calls w').

(** *** The countdown, as specified *)

(** [n] seconds pass, the interval [i] ticking after each. *)
Definition ticks (n : nat) (i : positive) (w : World) : World :=
  run (List.concat (replicate n [Elapse 1000; TimerFires i])) w.

(** The countdown has just started: no rows, 5 seconds remaining, the
    tick interval [i] and the expiry timeout [t] are the only countdown
    timers; the tick does not run before a second has passed and then
    decrements the remaining seconds every second, down to 0; the expiry
    does not run before 5000 ms have passed and then runs [_tryNext],
    once. *)
Definition countdown_started (w : World) : Prop :=
  rows (cmp w) = [] /\ secondsRemaining (cmp w) = 5%Z
  /\ exists i t,
       i <> t
       /\ _intervalId (cmp w) = Some i /\ _timeoutId (cmp w) = Some t
       /\ timers w !! i = Some (Interval 1000 (now w + 1000) CbTick)
       /\ timers w !! t = Some (Timeout (now w + 5000) CbTryNext)
       /\ (forall id tm, timers w !! id = Some tm -> is_countdown tm = true ->
                         id = i \/ id = t)
       /\ (forall ms, (0 <= ms < 1000)%Z ->
                      fire i (step (Elapse ms) w) = step (Elapse ms) w)
       /\ (forall n, secondsRemaining (cmp (ticks n i w)) = Z.max 0 (5 - Z.of_nat n)
                     /\ timers (ticks n i w) !! i
                        = Some (Interval 1000 (now (ticks n i w) + 1000) CbTick))
       /\ (forall ms, (0 <= ms < 5000)%Z ->
                      fire t (step (Elapse ms) w) = step (Elapse ms) w)
       /\ (forall ms, (5000 <= ms)%Z ->
                      fire t (step (Elapse ms) w)
                      = _tryNext (clearTimer t (step (Elapse ms) w))).

(** *** The dispatch, as specified *)


(** *** Scenarios *)

Definition NEXT_permitted : JsVal := JArr [JStr (str "NEXT")].

Definition typed (s : string) : FlowInput := FString (str s).

(** The person screen with NEXT permitted; the user has typed an e-mail
    address and after 100 ms the debounce timer (handle 1) has fired:
    lookup 1 is outstanding. *)
Definition first_lookup_outstanding : World :=
  run [SetCriterion Person.email (typed "a@wsr.nl"); Elapse 100; TimerFires 1]
    (init WoonstadDuplicateCheck NEXT_permitted).

(** Lookup 1 came back without matches 250 ms later: the countdown runs
    (interval 2, expiry 3). *)
Definition counting_down : World :=
  run [Elapse 250; CallSettles 1 (Resolved (JArr []))] first_lookup_outstanding.

(** *** Further bookkeeping of the session *)

(** The three timers the class sets. *)
Inductive TimerKind : Type :=
| Debounce
| Tick
| Expiry.

Definition timer_kind (t : Timer) : option TimerKind :=
  match t with
  | Timeout _ (CbFetch _) => Some Debounce
  | Interval _ _ CbTick => Some Tick
  | Timeout _ CbTryNext => Some Expiry
  | _ => None
  end.

(** The field that holds the handle of the timer of kind [k]. *)
Definition handle_of (k : TimerKind) (c : Component) : option positive :=
  match k with
  | Debounce => _debounceId c
  | Tick => _intervalId c
  | Expiry => _timeoutId c
  end.

(** No tick interval and no expiry timeout is live. *)
Definition no_countdown (w : World) : Prop :=
  forall id t, timers w !! id = Some t -> is_countdown t = false.

(** While a countdown timer is live the component shows the empty state of
    a completed fetch, no fetch is marked in flight and NEXT is permitted. *)
Definition countdown_inv (w : World) : Prop :=
  no_countdown w
  \/ (rows (cmp w) = [] /\ loading (cmp w) = false
      /\ _hasCompletedFetchWithInputs (cmp w) = true
      /\ _needsRefetch (cmp w) = false /\ _fetchInFlight (cmp w) = false
      /\ canNext (cmp w) = true).

(** The spinner and the in-flight flag are only up while a lookup is
    outstanding. *)
Definition busy_inv (w : World) : Prop :=
  loading (cmp w) = true \/ _fetchInFlight (cmp w) = true ->
  outstanding w <> ∅.

Definition is_attribute_change (e : FlowEvent) : bool :=
  match e with FlowAttributeChangeEvent _ _ => true | _ => false end.

(** The tasks that come from the search itself, not from the user's
    selection: time, a criteria setter, a timer, a settlement, the advance
    button. *)
Definition leaves_outputs (e : Input) : bool :=
  match e with
  | RowClick _ | RowKeydown _ _ | NewCustomerCheckbox _ => false
  | _ => true
  end.

(** The code unit of the separator of [_signature()]. *)
Definition bar : N := 124.

Definition no_bar (s : jsstring) : Prop := bar ∉ s.

(** [w'] has the Flow outputs of [w] and the same attribute-change events
    behind it. *)
Definition same_outputs (w w' : World) : Prop :=
  selectedExisting (cmp w') = selectedExisting (cmp w)
  /\ selectedAccountId (cmp w') = selectedAccountId (cmp w)
  /\ List.filter is_attribute_change (dispatched w')
     = List.filter is_attribute_change (dispatched w).

(** [w'] has the spinner, the in-flight flag and the outstanding lookups
    of [w]. *)
Definition same_busy (w w' : World) : Prop :=
  loading (cmp w') = loading (cmp w)
  /\ _fetchInFlight (cmp w') = _fetchInFlight (cmp w)
  /\ outstanding w' = outstanding w.

(** * Properties *)

(** ** The response extractor *)

Lemma array_at_obj props k :
  array_at (JObj props) k = Normal (isArray (get_own props k)).
Proof.
  unfold array_at; simpl.
  destruct (get_own props k) as [| |b|n|s|l|ps] eqn:E; simpl;
    repeat case_match; simpl; rewrite ?E; reflexivity.
Qed.

Lemma get_own_app_fresh pre suf k :
  k ∉ List.map fst pre -> get_own (pre ++ suf) k = get_own suf k.
Proof.
  induction pre as [|[k' v] pre IH]; simpl; intros Hk; [reflexivity|].
  apply not_elem_of_cons in Hk as [Hne Hk].
  rewrite bool_decide_eq_false_2 by congruence. auto.
Qed.

Lemma for_in_first_array_spec pre suf :
  NoDup (List.map fst (pre ++ suf)) ->
  for_in_first_array (JObj (pre ++ suf)) (List.map fst suf)
  = Normal (JArr <$> first_array_property suf).
Proof.
  revert pre. induction suf as [|[k v] suf IH]; intros pre Hnd; simpl.
  - reflexivity.
  - assert (Hget : get_own (pre ++ (k, v) :: suf) k = v).
    { rewrite get_own_app_fresh.
      - simpl. rewrite bool_decide_eq_true_2; reflexivity.
      - rewrite List.map_app in Hnd. simpl in Hnd.
        apply NoDup_app in Hnd as (_ & Hdisj & _).
        intros Hin. apply (Hdisj k Hin). left. }
    rewrite Hget.
    specialize (IH (pre ++ [(k, v)])).
    rewrite <- app_assoc in IH. simpl in IH. specialize (IH Hnd).
    destruct v; simpl; rewrite ?Hget; try exact IH; reflexivity.
Qed.

Lemma for_in_first_array_total props keys :
  for_in_first_array (JObj props) keys = Normal None
  \/ exists l, for_in_first_array (JObj props) keys = Normal (Some (JArr l)).
Proof.
  induction keys as [|k ks IH]; simpl; [left; reflexivity|].
  destruct (get_own props k) eqn:E; simpl; try exact IH.
  right. rewrite ?E. eauto.
Qed.

Lemma for_in_first_array_none props keys :
  Forall (fun kv => isArray (snd kv) = false) props ->
  for_in_first_array (JObj props) keys = Normal None.
Proof.
  intros Hall. induction keys as [|k ks IH]; simpl; [reflexivity|].
  assert (Hk : isArray (get_own props k) = false).
  { clear IH. induction Hall as [|[k' v] ps Hv _ IHps]; simpl; [reflexivity|].
    destruct (bool_decide (k' = k)); [exact Hv | exact IHps]. }
  destruct (get_own props k); simpl in *; try exact IH. discriminate.
Qed.

Lemma extractArray_obj props :
  _extractArray (JObj props) =
  match first_candidate_array props candidate_keys with
  | Some l => Normal (JArr l)
  | None =>
      let* r := for_in_first_array (JObj props) (List.map fst props) in
      match r with
      | Some a => Normal a
      | None => Normal (JArr [])
      end
  end.
Proof.
  unfold _extractArray, candidate_keys, first_candidate_array.
  cbn [isArray]. rewrite !array_at_obj. cbn [bind member].
  destruct (get_own props (str "results")) eqn:E1; cbn [isArray]; try reflexivity;
  destruct (get_own props (str "records")) eqn:E2; cbn [isArray]; try reflexivity;
  destruct (get_own props (str "data")) eqn:E3; cbn [isArray]; try reflexivity;
  destruct (get_own props (str "items")) eqn:E4; cbn [isArray]; reflexivity.
Qed.

Lemma extractArray_total resp : exists l, _extractArray resp = Normal (JArr l).
Proof.
  destruct resp as [| |b|n|s|l|props]; try (exists []; reflexivity).
  - exists []; destruct b; reflexivity.
  - exists []. unfold _extractArray; simpl. rewrite andb_false_r; reflexivity.
  - exists []; destruct s; reflexivity.
  - exists l; reflexivity.
  - rewrite extractArray_obj.
    destruct (first_candidate_array props candidate_keys) as [l|]; [eauto|].
    destruct (for_in_first_array_total props (List.map fst props)) as [->|[l ->]];
      simpl; eauto.
Qed.

Lemma extractArray_refines resp :
  unique_keys resp -> _extractArray resp = Normal (JArr (extract_spec resp)).
Proof.
  destruct resp as [| |b|n|s|l|props]; try reflexivity.
  { destruct b; reflexivity. }
  { intros _. unfold _extractArray; simpl. rewrite andb_false_r; reflexivity. }
  { destruct s; reflexivity. }
  cbn [unique_keys extract_spec]. intros Hnd. rewrite extractArray_obj.
  destruct (first_candidate_array props candidate_keys) as [l|]; [reflexivity|].
  pose proof (for_in_first_array_spec [] props Hnd) as Hfor.
  cbn [app] in Hfor. rewrite Hfor.
  destruct (first_array_property props); reflexivity.
Qed.

Lemma message_of_total resp : exists m, message_of resp = Normal m.
Proof.
  unfold message_of.
  destruct resp as [| |b|n|s|l|props]; simpl; repeat case_match; simpl; eauto.
  all: try match goal with H : get_own _ _ = _ |- _ => rewrite H end; eauto.
Qed.

(** Success and failure share one control path: the settled call stores
    its rows and message, then [after_settle] runs, then the [finally]
    block. *)
Lemma fetch_resume_unfold o w :
  fetch_resume o w =
  with_cmp (set__fetchInFlight false)
    (after_settle
       (with_cmp (fun c =>
          set_loading false (set__hasCompletedFetchWithInputs true
            (set_message (settled_message (controller w) o)
              (set_rows (settled_rows o) c)))) w)).
Proof.
  unfold fetch_resume, settled_rows, settled_message, fetch_catch, after_settle.
  destruct o as [resp|]; [|reflexivity].
  destruct (extractArray_total resp) as [l ->].
  destruct (message_of_total resp) as [m ->].
  reflexivity.
Qed.

(** ** Timer bookkeeping *)

Ltac unfold_world :=
  unfold with_cmp, setTimeout, setInterval, addTimer, clearTimer, callApex,
    settle, dispatchEvent, elapse in *;
  simpl in *.

Ltac lookup_cases H :=
  repeat first
    [ rewrite lookup_insert in H; case_decide; simplify_eq
    | rewrite lookup_delete in H; case_decide; simplify_eq ].

Lemma tracked_is_debounce c id t :
  tracked c id t -> is_debounce t = true -> _debounceId c = Some id.
Proof. destruct t as [? []|? ? []]; simpl; intros; try discriminate; tauto. Qed.

Lemma tracked_is_countdown c id t :
  tracked c id t -> is_countdown t = true ->
  _intervalId c = Some id \/ _timeoutId c = Some id.
Proof. destruct t as [? []|? ? []]; simpl; intros; try discriminate; tauto. Qed.

Lemma tracked_frame c c' id t :
  _debounceId c' = _debounceId c -> _intervalId c' = _intervalId c ->
  _timeoutId c' = _timeoutId c -> tracked c id t -> tracked c' id t.
Proof.
  intros Hd Hi Ht. destruct t as [? []|? ? []]; simpl; congruence.
Qed.

Lemma wf_with_cmp f w :
  (forall c, _debounceId (f c) = _debounceId c) ->
  (forall c, _intervalId (f c) = _intervalId c) ->
  (forall c, _timeoutId (f c) = _timeoutId c) ->
  wf w -> wf (with_cmp f w).
Proof.
  intros Hd Hi Ht [Hfresh Htr]. split; simpl; intros id t H.
  - eauto.
  - eapply tracked_frame; eauto.
Qed.

Lemma wf_init k actions : wf (init k actions).
Proof. split; simpl; intros id t H; rewrite lookup_empty in H; discriminate. Qed.

Lemma wf_clearTimers w : wf w -> wf (_clearTimers w).
Proof.
  intros [Hfresh Htr]. unfold _clearTimers.
  destruct (_intervalId (cmp w)) as [i|] eqn:Ei;
  destruct (_timeoutId (cmp w)) as [t|] eqn:Et;
  unfold_world; rewrite ?Ei, ?Et; unfold_world;
  (split; simpl; intros id tm H; lookup_cases H;
   [ eauto
   | specialize (Htr _ _ H);
     destruct tm as [? []|? ? []]; simpl in *; congruence ]).
Qed.

Lemma clearTimers_no_countdown w id t :
  wf w -> timers (_clearTimers w) !! id = Some t -> is_countdown t = false.
Proof.
  intros [Hfresh Htr]. unfold _clearTimers.
  destruct (_intervalId (cmp w)) as [i|] eqn:Ei;
  destruct (_timeoutId (cmp w)) as [tm|] eqn:Et;
  unfold_world; rewrite ?Ei, ?Et; unfold_world;
  intros H; lookup_cases H; specialize (Htr _ _ H);
  destruct t as [? []|? ? []]; simpl in *; congruence.
Qed.

Lemma wf_dispatchEvent e w : wf w -> wf (dispatchEvent e w).
Proof. intros [Hfresh Htr]. split; simpl; eauto. Qed.

Lemma wf_callApex params w : wf w -> wf (callApex params w).
Proof. intros [Hfresh Htr]. split; simpl; eauto. Qed.

Lemma wf_settle call w : wf w -> wf (settle call w).
Proof. intros [Hfresh Htr]. split; simpl; eauto. Qed.

Lemma wf_clearTimer id w : wf w -> wf (clearTimer id w).
Proof.
  intros [Hfresh Htr]. split; simpl; intros id' t H; lookup_cases H; eauto.
Qed.

Lemma wf_tryNext w : wf w -> wf (_tryNext w).
Proof.
  intros Hwf. unfold _tryNext.
  destruct (_autoNextFired (cmp w)); [assumption|].
  destruct (negb (canNext (cmp w))).
  - apply wf_clearTimers, Hwf.
  - apply wf_dispatchEvent, wf_clearTimers, wf_with_cmp; auto.
Qed.

Lemma wf_startCountdownAndAutoNext seconds w :
  wf w -> wf (_startCountdownAndAutoNext seconds w).
Proof.
  intros Hwf. unfold _startCountdownAndAutoNext.
  destruct (negb (_hasCompletedFetchWithInputs (cmp w)) || _needsRefetch (cmp w));
    [assumption|].
  pose proof (wf_clearTimers w Hwf) as Hwf1.
  pose proof (fun id t => clearTimers_no_countdown w id t Hwf) as Hnone.
  generalize dependent (_clearTimers w). intros w1 [Hfresh Htr] Hnone.
  destruct (negb (canNext (cmp w1))); [split; assumption|].
  split; simpl; intros id t H; lookup_cases H; simpl; try reflexivity; try lia.
  - apply Hfresh in H. lia.
  - specialize (Hnone _ _ H). specialize (Htr _ _ H).
    destruct t as [? []|? ? []]; simpl in *; congruence.
Qed.

Lemma wf_fetch sig w : wf w -> wf (_fetch sig w).
Proof.
  intros Hwf. unfold _fetch.
  destruct (_fetchInFlight (cmp w)); [assumption|].
  apply wf_callApex, wf_clearTimers, wf_with_cmp; auto.
Qed.

Lemma wf_refetch w : wf w -> wf (refetch w).
Proof. intros Hwf. apply wf_fetch, wf_with_cmp; auto. Qed.

Lemma wf_after_settle w : wf w -> wf (after_settle w).
Proof.
  intros Hwf. unfold after_settle.
  destruct (hasRows (cmp w)); [apply wf_clearTimers, Hwf|].
  destruct (_needsRefetch (cmp w));
    [apply wf_refetch, Hwf | apply wf_startCountdownAndAutoNext, Hwf].
Qed.

Lemma wf_fetch_resume o w : wf w -> wf (fetch_resume o w).
Proof.
  intros Hwf. rewrite fetch_resume_unfold.
  apply wf_with_cmp; auto. apply wf_after_settle, wf_with_cmp; auto.
Qed.

Lemma wf_scheduleFetch delayMs w : wf w -> wf (_scheduleFetch delayMs w).
Proof.
  intros Hwf. unfold _scheduleFetch.
  destruct (negb (_hasAnyInput (cmp w))); [assumption|].
  destruct (_fetchInFlight (cmp w)); [apply wf_with_cmp; auto|].
  destruct Hwf as [Hfresh Htr].
  destruct (_debounceId (cmp w)) as [d|] eqn:Ed;
    (split; simpl; intros id t H; lookup_cases H; simpl; try reflexivity;
     [ lia
     | apply Hfresh in H; lia
     | specialize (Htr _ _ H);
       destruct t as [? []|? ? []]; simpl in *; congruence ]).
Qed.

Lemma wf_set_criterion i v w : wf w -> wf (set_criterion i v w).
Proof. intros Hwf. apply wf_scheduleFetch, wf_with_cmp; auto. Qed.

Lemma wf_handleRowClick id w : wf w -> wf (handleRowClick id w).
Proof.
  intros Hwf. destruct id as [[|c id]|]; simpl; try assumption.
  apply wf_tryNext, wf_clearTimers.
  repeat apply wf_dispatchEvent. apply wf_with_cmp; auto.
Qed.

Lemma wf_run_callback cb w : wf w -> wf (run_callback cb w).
Proof.
  intros Hwf. destruct cb; simpl.
  - apply wf_fetch, Hwf.
  - destruct (secondsRemaining (cmp w) >? 0)%Z; [apply wf_with_cmp; auto|assumption].
  - apply wf_tryNext, Hwf.
Qed.

Lemma wf_elapse ms w : wf w -> wf (elapse ms w).
Proof. intros [Hfresh Htr]. split; simpl; eauto. Qed.

Lemma wf_rearmTimer id w : wf w -> wf (rearmTimer id w).
Proof.
  intros [Hfresh Htr]. unfold rearmTimer.
  destruct (timers w !! id) as [[due cb|period due cb]|] eqn:E;
    try (split; assumption).
  split; simpl; intros id' t H; lookup_cases H; eauto.
  specialize (Htr _ _ E). destruct cb; simpl in *; auto.
Qed.

Lemma wf_fire id w : wf w -> wf (fire id w).
Proof.
  intros Hwf. unfold fire.
  destruct (timers w !! id) as [[due cb|period due cb]|]; try assumption;
    destruct (due <=? now w)%Z; try assumption.
  - apply wf_run_callback, wf_clearTimer, Hwf.
  - apply wf_rearmTimer, wf_run_callback, Hwf.
Qed.

Lemma wf_step e w : wf w -> wf (step e w).
Proof.
  intros Hwf. destruct e as [ms|i v|id|call o|id|key id|checked|]; simpl.
  - destruct (0 <=? ms)%Z; [apply wf_elapse, Hwf | assumption].
  - apply wf_set_criterion, Hwf.
  - apply wf_fire, Hwf.
  - destruct (outstanding w !! call); [|assumption].
    apply wf_fetch_resume, wf_settle, Hwf.
  - apply wf_handleRowClick, Hwf.
  - unfold handleRowKeydown. destruct key as [k|]; [|assumption].
    destruct (_ || _); [apply wf_handleRowClick, Hwf | assumption].
  - unfold handleNewCustomerCheckbox. cbn [with_cmp cmp].
    destruct checked; simpl.
    + repeat apply wf_dispatchEvent. apply (wf_with_cmp _ (with_cmp _ w)); auto.
      apply wf_with_cmp; auto.
    + apply wf_with_cmp; auto.
  - unfold handleNext. destruct (isCreateBtnDisabled (cmp w)); [assumption|].
    apply wf_tryNext, wf_clearTimers, Hwf.
Qed.

Lemma wf_run es w : wf w -> wf (run es w).
Proof.
  revert w. induction es as [|e es IH]; intros w Hwf; simpl; [assumption|].
  apply IH, wf_step, Hwf.
Qed.

Lemma reachable_wf w : reachable w -> wf w.
Proof. intros (k & actions & es & ->). apply wf_run, wf_init. Qed.

(** ** What the settlement of a call stores *)

Ltac frame :=
  unfold after_settle, refetch, _fetch, _startCountdownAndAutoNext, _tryNext,
    _clearTimers;
  repeat (case_match; simpl); try reflexivity.

Lemma rows_after_settle w : rows (cmp (after_settle w)) = rows (cmp w).
Proof. frame. Qed.

Lemma rows_fetch_resume o w : rows (cmp (fetch_resume o w)) = settled_rows o.
Proof. rewrite fetch_resume_unfold. simpl. rewrite rows_after_settle. reflexivity. Qed.

Lemma settled_rows_spec resp :
  unique_keys resp -> settled_rows (Resolved resp) = extract_spec resp.
Proof. intros H. simpl. rewrite extractArray_refines by assumption. reflexivity. Qed.

(** C8: the extraction is the one the interface describes: a bare array is
    the result sequence; otherwise the first array under the candidate
    keys results, records, data, items, in that order; otherwise the first
    own property whose value is an array; otherwise nothing.  After a call
    settled, the component has no rows exactly when the extraction was
    empty or the call failed. *)
Theorem C8_extraction_is_uniform (resp : JsVal) (w : World) :
  unique_keys resp ->
  _extractArray resp = Normal (JArr (extract_spec resp))
  /\ (hasRows (cmp (fetch_resume (Resolved resp) w)) = false
      <-> extract_spec resp = [])
  /\ hasRows (cmp (fetch_resume Rejected w)) = false.
Proof.
  intros Hu. split; [apply extractArray_refines, Hu|]. split.
  - unfold hasRows. rewrite rows_fetch_resume, settled_rows_spec by assumption.
    destruct (extract_spec resp); split; intros; congruence.
  - unfold hasRows. rewrite rows_fetch_resume. reflexivity.
Qed.

Lemma C8_extraction_is_uniform_witness :
  let resp := JObj [(str "total", JNum 2);
                    (str "data", JArr [JNum 1; JNum 2]);
                    (str "items", JArr [])] in
  _extractArray resp = Normal (JArr [JNum 1; JNum 2])
  /\ (hasRows (cmp (fetch_resume (Resolved resp)
                      (init WoonstadDuplicateCheck (JArr [])))) = false
      <-> [JNum 1; JNum 2] = [])
  /\ hasRows (cmp (fetch_resume Rejected (init WoonstadDuplicateCheck (JArr []))))
     = false.
Proof.
  apply (C8_extraction_is_uniform
           (JObj [(str "total", JNum 2);
                  (str "data", JArr [JNum 1; JNum 2]);
                  (str "items", JArr [])])
           (init WoonstadDuplicateCheck (JArr []))).
  cbn [unique_keys]. apply (bool_decide_unpack _). vm_compute. exact I.
Defined.

(** C9: the extractor never throws and always returns an array; a value
    that is no array and holds none yields the empty array. *)
Theorem C9_extractor_total (resp : JsVal) :
  (exists l, _extractArray resp = Normal (JArr l))
  /\ (no_array_inside resp -> _extractArray resp = Normal (JArr [])).
Proof.
  split; [apply extractArray_total|].
  destruct resp as [| |b|n|s|l|props]; simpl; intros Hno; try reflexivity.
  - destruct b; reflexivity.
  - unfold _extractArray; simpl. rewrite andb_false_r; reflexivity.
  - destruct s; reflexivity.
  - contradiction.
  - rewrite extractArray_obj.
    assert (Hc : first_candidate_array props candidate_keys = None).
    { assert (Hk : forall k, isArray (get_own props k) = false).
      { intros k. induction Hno as [|[k' v] ps Hv _ IH]; simpl; [reflexivity|].
        destruct (bool_decide (k' = k)); [exact Hv | exact IH]. }
      unfold candidate_keys; simpl.
      repeat match goal with
             | |- context [get_own props ?k] =>
                 let E := fresh in
                 pose proof (Hk k) as E; destruct (get_own props k);
                 try discriminate E; clear E
             end; reflexivity. }
    rewrite Hc, for_in_first_array_none by assumption. reflexivity.
Qed.

Lemma C9_extractor_total_witness :
  (exists l, _extractArray (JObj [(str "message", JStr (str "geen"))])
             = Normal (JArr l))
  /\ _extractArray (JObj [(str "message", JStr (str "geen"))]) = Normal (JArr []).
Proof.
  destruct (C9_extractor_total (JObj [(str "message", JStr (str "geen"))]))
    as [Htotal Hempty].
  split; [exact Htotal|]. apply Hempty. repeat constructor.
Defined.

(** ** Normalisation of the criteria *)

Lemma head_ws_trim_start s : head_ws (trim_start s) = false.
Proof.
  induction s as [|c s IH]; simpl; [reflexivity|].
  destruct (is_ws c) eqn:E; simpl; auto.
Qed.

Lemma trim_start_snoc l c :
  is_ws c = false -> trim_start (l ++ [c]) = trim_start l ++ [c].
Proof.
  intros Hc. induction l as [|a l IH]; simpl.
  - rewrite Hc. reflexivity.
  - destruct (is_ws a); [exact IH | reflexivity].
Qed.

Lemma head_ws_trim_end t : head_ws t = false -> head_ws (trim_end t) = false.
Proof.
  unfold trim_end. destruct t as [|c t]; simpl; [reflexivity|]. intros Hc.
  rewrite trim_start_snoc by assumption.
  rewrite rev_app_distr. simpl. exact Hc.
Qed.

Lemma trimmed_trim s : trimmed (trim s) = true.
Proof.
  unfold trimmed, trim.
  rewrite head_ws_trim_end by apply head_ws_trim_start.
  unfold trim_end. rewrite rev_involutive, head_ws_trim_start. reflexivity.
Qed.

Lemma trim_start_blank s : blank s = true -> trim_start s = [].
Proof.
  induction s as [|c s IH]; simpl; [reflexivity|].
  intros H. apply andb_prop in H as [Hc Hs]. rewrite Hc. auto.
Qed.

Lemma trim_blank s : blank s = true -> trim s = [].
Proof. intros H. unfold trim. rewrite trim_start_blank by assumption. reflexivity. Qed.

Lemma criteria_scheduleFetch delayMs w :
  criteria (cmp (_scheduleFetch delayMs w)) = criteria (cmp w).
Proof. unfold _scheduleFetch. repeat (case_match; simpl); reflexivity. Qed.

Lemma criteria_set_criterion i v w :
  criteria (cmp (set_criterion i v w)) = <[i := normalize v]> (criteria (cmp w)).
Proof. unfold set_criterion. rewrite criteria_scheduleFetch. reflexivity. Qed.

(** With no input, [_scheduleFetch] returns at once. *)
Lemma scheduleFetch_no_input delayMs w :
  _hasAnyInput (cmp w) = false -> _scheduleFetch delayMs w = w.
Proof. intros H. unfold _scheduleFetch. rewrite H. reflexivity. Qed.

(** What a setter call does to the criteria, from any state in which they
    are trimmed. *)
Lemma text_of_or_empty v : or_empty_string v = text_of v.
Proof. destruct v; reflexivity. Qed.

Lemma trim_start_nil_blank s : trim_start s = [] -> blank s = true.
Proof.
  induction s as [|c s IH]; simpl; [reflexivity|].
  destruct (is_ws c); [exact IH | discriminate].
Qed.

Lemma blank_rev s : blank (rev s) = blank s.
Proof.
  unfold blank. apply eq_true_iff_eq. rewrite !forallb_forall.
  split; intros H x Hx; apply H; [by apply in_rev in Hx | by apply in_rev].
Qed.

Lemma trim_start_fixed s : head_ws s = false -> trim_start s = s.
Proof. destruct s as [|c s]; simpl; [reflexivity|]. intros ->. reflexivity. Qed.

Lemma trim_start_blank_app l s :
  blank l = true -> trim_start (l ++ s) = trim_start s.
Proof.
  induction l as [|c l IH]; simpl; [reflexivity|].
  intros H. apply andb_prop in H as [Hc Hl]. rewrite Hc. auto.
Qed.

(** The white space [trim_start] drops. *)
Lemma trim_start_split s : exists l, s = l ++ trim_start s /\ blank l = true.
Proof.
  induction s as [|c s (l & Hs & Hl)]; simpl.
  - exists []. split; reflexivity.
  - destruct (is_ws c) eqn:Hc.
    + exists (c :: l). simpl. rewrite Hc, Hl. split; [congruence | reflexivity].
    + exists []. split; reflexivity.
Qed.

(** [trim] gives the string without the white space around it. *)
Lemma trim_strips s : stripped s (trim s).
Proof.
  split; [apply trimmed_trim|].
  destruct (trim_start_split s) as (l & Hs & Hl).
  destruct (trim_start_split (rev (trim_start s))) as (r & Hr & Hbr).
  exists l, (rev r). split; [|split; [exact Hl | rewrite blank_rev; exact Hbr]].
  unfold trim, trim_end. rewrite <- rev_app_distr, <- Hr, rev_involutive.
  exact Hs.
Qed.

(** And nothing else does. *)
Lemma stripped_trim s stored : stripped s stored -> stored = trim s.
Proof.
  intros (Ht & l & r & -> & Hl & Hr).
  unfold trimmed in Ht. apply andb_prop in Ht as [H1 H2].
  apply negb_true_iff in H1, H2.
  unfold trim, trim_end. rewrite (trim_start_blank_app l _ Hl).
  destruct stored as [|c stored].
  - simpl. rewrite (trim_start_blank r Hr). reflexivity.
  - assert (Hhead : trim_start ((c :: stored) ++ r) = (c :: stored) ++ r)
      by (apply trim_start_fixed; exact H1).
    rewrite Hhead, rev_app_distr.
    rewrite trim_start_blank_app by (rewrite blank_rev; exact Hr).
    rewrite (trim_start_fixed _ H2). apply eq_sym, rev_involutive.
Qed.

(** With the criterion [i] empty there is input exactly when another
    criterion is non-empty. *)
Lemma hasAnyInput_others (l : list jsstring) (i : nat) :
  (i < List.length l)%nat ->
  existsb nonempty (<[i := []]> l) = true
  <-> exists j s, j <> i /\ l !! j = Some s /\ s <> [].
Proof.
  intros Hi. rewrite existsb_exists. split.
  - intros (s & Hin & Hs). apply list_elem_of_In, list_elem_of_lookup in Hin.
    destruct Hin as [j Hj]. destruct (decide (j = i)) as [->|Hne].
    + rewrite list_lookup_insert_eq in Hj by assumption.
      injection Hj as <-. discriminate Hs.
    + rewrite list_lookup_insert_ne in Hj by congruence.
      exists j, s. repeat split; [exact Hne | exact Hj |].
      intros ->. discriminate Hs.
  - intros (j & s & Hne & Hj & Hs). exists s. split.
    + apply list_elem_of_In, list_elem_of_lookup. exists j.
      rewrite list_lookup_insert_ne by congruence. exact Hj.
    + destruct s; [congruence | reflexivity].
Qed.

Lemma set_criterion_normalizes (w : World) (i : nat) (v : FlowInput) :
  (i < List.length (criteria (cmp w)))%nat ->
  Forall (fun s => trimmed s = true) (criteria (cmp w)) ->
  let w' := set_criterion i v w in
  (forall stored,
      criteria (cmp w') !! i = Some stored <-> stripped (text_of v) stored)
  /\ (forall j, j <> i -> criteria (cmp w') !! j = criteria (cmp w) !! j)
  /\ Forall (fun s => trimmed s = true) (criteria (cmp w'))
  /\ (blank (text_of v) = true ->
      criteria (cmp w') !! i = Some []
      /\ w' = set_criterion i (FString []) w
      /\ (_hasAnyInput (cmp w') = true
          <-> exists j s, j <> i /\ criteria (cmp w) !! j = Some s /\ s <> [])
      /\ (_hasAnyInput (cmp w') = false ->
          (forall id t, timers w' !! id = Some t -> timers w !! id = Some t)
          /\ calls w' = calls w /\ outstanding w' = outstanding w
          /\ _needsRefetch (cmp w') = _needsRefetch (cmp w)
          /\ _pendingSig (cmp w') = _pendingSig (cmp w))).
Proof.
  intros Hi Htrim w'. subst w'.
  rewrite !criteria_set_criterion. unfold normalize.
  rewrite text_of_or_empty.
  split.
  { intros stored. rewrite list_lookup_insert_eq by exact Hi. split.
    - intros [= <-]. apply trim_strips.
    - intros H. f_equal. symmetry. by apply stripped_trim. }
  split; [intros j Hne; apply list_lookup_insert_ne; congruence|].
  split.
  { apply Forall_insert; [assumption | apply trimmed_trim]. }
  intros Hblank.
  assert (Hsame : set_criterion i v w = set_criterion i (FString []) w).
  { unfold set_criterion, normalize. rewrite text_of_or_empty.
    rewrite trim_blank by assumption. reflexivity. }
  rewrite trim_blank by assumption.
  split; [apply list_lookup_insert_eq, Hi|].
  split; [exact Hsame|].
  split.
  { unfold _hasAnyInput. rewrite criteria_set_criterion. unfold normalize.
    rewrite text_of_or_empty, trim_blank by assumption.
    apply hasAnyInput_others, Hi. }
  intros Hnone. unfold _hasAnyInput in Hnone.
  rewrite criteria_set_criterion in Hnone.
  unfold set_criterion. rewrite scheduleFetch_no_input by exact Hnone.
  repeat split; auto.
Qed.

(** Only the setters write the criteria. *)
Lemma static_after_settle w :
  criteria (cmp (after_settle w)) = criteria (cmp w)
  /\ controller (after_settle w) = controller w.
Proof. frame; auto. Qed.

Lemma static_fetch_resume o w :
  criteria (cmp (fetch_resume o w)) = criteria (cmp w)
  /\ controller (fetch_resume o w) = controller w.
Proof.
  rewrite fetch_resume_unfold. cbn [with_cmp cmp controller set__fetchInFlight criteria].
  destruct (static_after_settle
              (with_cmp (fun c =>
                 set_loading false (set__hasCompletedFetchWithInputs true
                   (set_message (settled_message (controller w) o)
                     (set_rows (settled_rows o) c)))) w)) as [-> ->].
  auto.
Qed.

Lemma static_tryNext w :
  criteria (cmp (_tryNext w)) = criteria (cmp w)
  /\ controller (_tryNext w) = controller w.
Proof. frame; auto. Qed.

Lemma static_clearTimers w :
  criteria (cmp (_clearTimers w)) = criteria (cmp w)
  /\ controller (_clearTimers w) = controller w.
Proof. frame; auto. Qed.

Lemma static_run_callback cb w :
  criteria (cmp (run_callback cb w)) = criteria (cmp w)
  /\ controller (run_callback cb w) = controller w.
Proof.
  destruct cb; cbn [run_callback].
  - frame; auto.
  - case_match; auto.
  - apply static_tryNext.
Qed.

Lemma static_fire id w :
  criteria (cmp (fire id w)) = criteria (cmp w)
  /\ controller (fire id w) = controller w.
Proof.
  unfold fire. destruct (timers w !! id) as [[due cb|period due cb]|]; auto;
    destruct (due <=? now w)%Z; auto.
  - apply (static_run_callback cb (clearTimer id w)).
  - destruct (static_run_callback cb w) as [Hc Hk].
    unfold rearmTimer. repeat case_match; auto.
Qed.

Lemma static_handleRowClick id w :
  criteria (cmp (handleRowClick id w)) = criteria (cmp w)
  /\ controller (handleRowClick id w) = controller w.
Proof.
  destruct id as [[|c id]|]; simpl; auto.
  set (w3 := _clearTimers _).
  destruct (static_tryNext w3) as [-> ->]. subst w3.
  match goal with |- context [_clearTimers ?x] =>
    destruct (static_clearTimers x) as [-> ->] end.
  auto.
Qed.

Lemma static_step e w :
  criteria (cmp (step e w))
  = match e with
    | SetCriterion i v => <[i := normalize v]> (criteria (cmp w))
    | _ => criteria (cmp w)
    end
  /\ controller (step e w) = controller w.
Proof.
  destruct e as [ms|i v|id|call o|id|key id|checked|]; cbn [step].
  - destruct (0 <=? ms)%Z; auto.
  - split; [apply criteria_set_criterion|].
    unfold set_criterion, _scheduleFetch. repeat (case_match; simpl); auto.
  - apply static_fire.
  - destruct (outstanding w !! call); auto.
    apply (static_fetch_resume o (settle call w)).
  - apply static_handleRowClick.
  - unfold handleRowKeydown. repeat case_match; auto; apply static_handleRowClick.
  - unfold handleNewCustomerCheckbox. destruct checked; simpl; auto.
  - unfold handleNext. case_match; auto.
    destruct (static_tryNext (_clearTimers w)) as [-> ->].
    apply static_clearTimers.
Qed.

(** In every reachable state the component has the criteria of its class,
    each of them trimmed. *)
Lemma reachable_criteria w :
  reachable w ->
  List.length (criteria (cmp w)) = fieldCount (controller w)
  /\ Forall (fun s => trimmed s = true) (criteria (cmp w)).
Proof.
  intros (k & actions & es & ->).
  assert (Hinit : List.length (criteria (cmp (init k actions)))
                  = fieldCount (controller (init k actions))
                  /\ Forall (fun s => trimmed s = true)
                       (criteria (cmp (init k actions)))).
  { destruct k; simpl; repeat constructor. }
  generalize dependent (init k actions). clear k actions.
  induction es as [|e es IH]; intros w Hw; [exact Hw|].
  cbn [run fold_left]. apply IH.
  destruct Hw as [Hlen Htrim]. destruct (static_step e w) as [Hc Hk].
  rewrite Hc, Hk. destruct e; auto.
  split; [rewrite length_insert; exact Hlen|].
  destruct (decide (i < List.length (criteria (cmp w)))%nat) as [Hi|Hi].
  - apply Forall_insert; [exact Htrim | apply trimmed_trim].
  - rewrite list_insert_ge by lia. exact Htrim.
Qed.

(** C10: in any state of a session, a setter stores its value without the
    white space around it, [undefined] and [null] standing for the empty
    string, and leaves the other criteria as they are; after it every
    criterion is a trimmed string.  A value of white space only is stored
    as the empty string and the call is the call with the empty string:
    there is input after it exactly when another criterion is non-empty,
    and when none is, the call schedules nothing: it sets no timer, sends
    no lookup and marks no refetch. *)
Theorem C10_setters_normalize (w : World) (i : nat) (v : FlowInput) :
  reachable w -> (i < fieldCount (controller w))%nat ->
  let w' := set_criterion i v w in
  (forall stored,
      criteria (cmp w') !! i = Some stored <-> stripped (text_of v) stored)
  /\ (forall j, j <> i -> criteria (cmp w') !! j = criteria (cmp w) !! j)
  /\ Forall (fun s => trimmed s = true) (criteria (cmp w'))
  /\ (blank (text_of v) = true ->
      criteria (cmp w') !! i = Some []
      /\ w' = set_criterion i (FString []) w
      /\ (_hasAnyInput (cmp w') = true
          <-> exists j s, j <> i /\ criteria (cmp w) !! j = Some s /\ s <> [])
      /\ (_hasAnyInput (cmp w') = false ->
          (forall id t, timers w' !! id = Some t -> timers w !! id = Some t)
          /\ calls w' = calls w /\ outstanding w' = outstanding w
          /\ _needsRefetch (cmp w') = _needsRefetch (cmp w)
          /\ _pendingSig (cmp w') = _pendingSig (cmp w))).
Proof.
  intros Hr Hi. destruct (reachable_criteria w Hr) as [Hlen Htrim].
  apply set_criterion_normalizes; [rewrite Hlen; exact Hi | exact Htrim].
Qed.

Lemma C10_setters_normalize_witness :
  let w := run [SetCriterion Person.mobile (typed " 06 12 "); Elapse 100;
                TimerFires 1; SetCriterion Person.mobile FNull]
             (init WoonstadDuplicateCheck NEXT_permitted) in
  let w1 := set_criterion Person.email (typed "  a@wsr.nl ") w in
  let w2 := set_criterion Person.phone (typed "   ") w in
  (reachable w /\ (Person.phone < fieldCount (controller w))%nat
   /\ blank (text_of (typed "   ")) = true
   /\ _hasAnyInput (cmp w2) = false)
  /\ stripped (str "  a@wsr.nl ") (str "a@wsr.nl")
  /\ criteria (cmp w1) !! Person.email = Some (str "a@wsr.nl")
  /\ criteria (cmp w2) !! Person.phone = Some []
  /\ (forall id t, timers w2 !! id = Some t -> timers w !! id = Some t)
  /\ calls w2 = calls w
  /\ _needsRefetch (cmp w2) = _needsRefetch (cmp w).
Proof.
  intros w w1 w2.
  assert (Hr : reachable w).
  { exists WoonstadDuplicateCheck, NEXT_permitted,
      [SetCriterion Person.mobile (typed " 06 12 "); Elapse 100;
       TimerFires 1; SetCriterion Person.mobile FNull].
    reflexivity. }
  assert (Hi : (Person.phone < fieldCount (controller w))%nat)
    by (vm_compute; lia).
  assert (Hi1 : (Person.email < fieldCount (controller w))%nat)
    by (vm_compute; lia).
  assert (Hb : blank (text_of (typed "   ")) = true) by reflexivity.
  assert (Hn : _hasAnyInput (cmp w2) = false) by (vm_compute; reflexivity).
  assert (Hs : stripped (str "  a@wsr.nl ") (str "a@wsr.nl")).
  { split; [reflexivity|]. exists (str "  "), (str " ").
    repeat split; reflexivity. }
  destruct (C10_setters_normalize w Person.email (typed "  a@wsr.nl ") Hr Hi1)
    as (Hstored & _).
  destruct (C10_setters_normalize w Person.phone (typed "   ") Hr Hi)
    as (_ & _ & _ & Hblank).
  destruct (Hblank Hb) as (Hempty & _ & _ & Hquiet).
  destruct (Hquiet Hn) as (Htimers & Hcalls & _ & Hlatch & _).
  split; [repeat split; assumption|].
  split; [exact Hs|]. split; [apply Hstored; exact Hs|].
  repeat split; assumption.
Defined.

(** ** The transition gate *)

Lemma advance_count_dispatchEvent e w :
  advance_count (dispatchEvent e w)
  = (advance_count w + if is_advance e then 1 else 0)%nat.
Proof.
  unfold advance_count; simpl. rewrite List.filter_app, List.length_app.
  simpl. destruct (is_advance e); reflexivity.
Qed.

Lemma clearTimers_gate w :
  dispatched (_clearTimers w) = dispatched w
  /\ _autoNextFired (cmp (_clearTimers w)) = _autoNextFired (cmp w)
  /\ availableActions (cmp (_clearTimers w)) = availableActions (cmp w)
  /\ newCustomerChecked (cmp (_clearTimers w)) = newCustomerChecked (cmp w).
Proof. unfold _clearTimers. repeat (case_match; simpl); auto. Qed.

Lemma tryNext_fired w : _autoNextFired (cmp w) = true -> _tryNext w = w.
Proof. intros H. unfold _tryNext. rewrite H. reflexivity. Qed.

Lemma tryNext_emits w :
  _autoNextFired (cmp w) = false -> canNext (cmp w) = true ->
  advance_count (_tryNext w) = S (advance_count w)
  /\ _autoNextFired (cmp (_tryNext w)) = true.
Proof.
  intros Hf Hc. unfold _tryNext. rewrite Hf, Hc. simpl.
  rewrite advance_count_dispatchEvent. simpl.
  destruct (clearTimers_gate (with_cmp (set__autoNextFired true) w))
    as (Hd & Ha & _).
  split; [|exact Ha].
  unfold advance_count. rewrite Hd. simpl. lia.
Qed.

Lemma tryNext_blocked w :
  _autoNextFired (cmp w) = false -> canNext (cmp w) = false ->
  _tryNext w = _clearTimers w.
Proof. intros Hf Hc. unfold _tryNext. rewrite Hf, Hc. reflexivity. Qed.

Lemma gate_inv_frame w w' :
  dispatched w' = dispatched w ->
  _autoNextFired (cmp w') = _autoNextFired (cmp w) ->
  gate_inv w -> gate_inv w'.
Proof. unfold gate_inv, advance_count. intros -> ->. auto. Qed.

Lemma gate_inv_tryNext w : gate_inv w -> gate_inv (_tryNext w).
Proof.
  intros Hinv. destruct (_autoNextFired (cmp w)) eqn:Hf.
  - rewrite tryNext_fired by assumption. exact Hinv.
  - destruct (canNext (cmp w)) eqn:Hc.
    + destruct (tryNext_emits w Hf Hc) as [Hn Ha].
      unfold gate_inv in *. rewrite Hn, Ha, Hinv, Hf. reflexivity.
    + rewrite tryNext_blocked by assumption.
      destruct (clearTimers_gate w) as (Hd & Ha & _).
      eapply gate_inv_frame; eauto.
Qed.

Lemma gate_inv_clearTimers w : gate_inv w -> gate_inv (_clearTimers w).
Proof.
  destruct (clearTimers_gate w) as (Hd & Ha & _). apply gate_inv_frame; auto.
Qed.

Lemma fetch_gate sig w :
  dispatched (_fetch sig w) = dispatched w
  /\ _autoNextFired (cmp (_fetch sig w)) = _autoNextFired (cmp w).
Proof. unfold _fetch, _clearTimers. repeat (case_match; simpl); auto. Qed.

Lemma after_settle_gate w :
  dispatched (after_settle w) = dispatched w
  /\ _autoNextFired (cmp (after_settle w)) = _autoNextFired (cmp w).
Proof. frame; auto. Qed.

Lemma fetch_resume_gate o w :
  dispatched (fetch_resume o w) = dispatched w
  /\ _autoNextFired (cmp (fetch_resume o w)) = _autoNextFired (cmp w).
Proof.
  rewrite fetch_resume_unfold. simpl.
  destruct (after_settle_gate
              (with_cmp (fun c =>
                 set_loading false (set__hasCompletedFetchWithInputs true
                   (set_message (settled_message (controller w) o)
                     (set_rows (settled_rows o) c)))) w)) as [Hd Ha].
  rewrite Hd, Ha. auto.
Qed.

Lemma scheduleFetch_gate delayMs w :
  dispatched (_scheduleFetch delayMs w) = dispatched w
  /\ _autoNextFired (cmp (_scheduleFetch delayMs w)) = _autoNextFired (cmp w).
Proof. unfold _scheduleFetch. repeat (case_match; simpl); auto. Qed.

Lemma gate_inv_handleRowClick id w : gate_inv w -> gate_inv (handleRowClick id w).
Proof.
  intros Hinv. destruct id as [[|c id]|]; simpl; try assumption.
  apply gate_inv_tryNext, gate_inv_clearTimers.
  unfold gate_inv in *. rewrite !advance_count_dispatchEvent. simpl.
  unfold advance_count in *; simpl. lia.
Qed.

Lemma gate_inv_run_callback cb w : gate_inv w -> gate_inv (run_callback cb w).
Proof.
  intros Hinv. destruct cb; simpl.
  - destruct (fetch_gate sig w). eapply gate_inv_frame; eauto.
  - destruct (secondsRemaining (cmp w) >? 0)%Z; exact Hinv.
  - apply gate_inv_tryNext, Hinv.
Qed.

Lemma gate_inv_fire id w : gate_inv w -> gate_inv (fire id w).
Proof.
  intros Hinv. unfold fire.
  destruct (timers w !! id) as [[due cb|period due cb]|]; try assumption;
    destruct (due <=? now w)%Z; try assumption.
  - apply gate_inv_run_callback. exact Hinv.
  - pose proof (gate_inv_run_callback cb w Hinv) as Hinv'.
    unfold rearmTimer. repeat case_match; exact Hinv'.
Qed.

Lemma gate_inv_step e w : gate_inv w -> gate_inv (step e w).
Proof.
  intros Hinv. destruct e as [ms|i v|id|call o|id|key id|checked|]; simpl.
  - destruct (0 <=? ms)%Z; exact Hinv.
  - unfold set_criterion.
    destruct (scheduleFetch_gate 100
                (with_cmp (fun c => set_criteria (<[i:=normalize v]> (criteria c)) c) w)).
    eapply gate_inv_frame; eauto.
  - apply gate_inv_fire, Hinv.
  - destruct (outstanding w !! call); [|assumption].
    destruct (fetch_resume_gate o (settle call w)).
    eapply gate_inv_frame; eauto.
  - apply gate_inv_handleRowClick, Hinv.
  - unfold handleRowKeydown. destruct key as [k|]; [|assumption].
    destruct (_ || _); [apply gate_inv_handleRowClick, Hinv | assumption].
  - unfold handleNewCustomerCheckbox. destruct checked; simpl; [|exact Hinv].
    unfold gate_inv in *. rewrite !advance_count_dispatchEvent. simpl.
    unfold advance_count in *; simpl. lia.
  - unfold handleNext. destruct (isCreateBtnDisabled (cmp w)); [assumption|].
    apply gate_inv_tryNext, gate_inv_clearTimers, Hinv.
Qed.

Lemma gate_inv_run es w : gate_inv w -> gate_inv (run es w).
Proof.
  revert w. induction es as [|e es IH]; intros w Hinv; simpl; [assumption|].
  apply IH, gate_inv_step, Hinv.
Qed.

Lemma reachable_gate_inv w : reachable w -> gate_inv w.
Proof. intros (k & actions & es & ->). apply gate_inv_run. reflexivity. Qed.

(** In every reachable state at most one advance signal has been sent. *)
Lemma advance_at_most_once w : reachable w -> (advance_count w <= 1)%nat.
Proof.
  intros Hr. rewrite (reachable_gate_inv w Hr).
  destruct (_autoNextFired (cmp w)); lia.
Qed.

Lemma tryNext_after w :
  availableActions (cmp (_tryNext w)) = availableActions (cmp w)
  /\ newCustomerChecked (cmp (_tryNext w)) = newCustomerChecked (cmp w)
  /\ (_autoNextFired (cmp w) = true \/ canNext (cmp w) = true ->
      _autoNextFired (cmp (_tryNext w)) = true).
Proof.
  unfold _tryNext.
  destruct (_autoNextFired (cmp w)) eqn:Hf; [tauto|].
  destruct (canNext (cmp w)) eqn:Hc; cbn [negb dispatchEvent cmp].
  - destruct (clearTimers_gate (with_cmp (set__autoNextFired true) w))
      as (_ & Ha & Hav & Hn). rewrite Ha, Hav, Hn. auto.
  - destruct (clearTimers_gate w) as (_ & Ha & Hav & Hn).
    rewrite Hav, Hn. intuition congruence.
Qed.

Lemma canNext_frame c c' :
  availableActions c' = availableActions c -> canNext c' = canNext c.
Proof. unfold canNext. intros ->. reflexivity. Qed.

Lemma request_after r w :
  availableActions (cmp (request r w)) = availableActions (cmp w)
  /\ newCustomerChecked (cmp (request r w)) = newCustomerChecked (cmp w)
  /\ (_autoNextFired (cmp w) = true -> _autoNextFired (cmp (request r w)) = true)
  /\ (canNext (cmp w) = true -> reaches_gate w r = true ->
      _autoNextFired (cmp (request r w)) = true).
Proof.
  destruct r as [|id|]; simpl.
  - destruct (tryNext_after w) as (Hav & Hn & Hf). repeat split; auto.
  - destruct id as [|c id]; simpl.
    + repeat split; auto. discriminate.
    + set (w3 := _clearTimers _).
      destruct (tryNext_after w3) as (Hav & Hn & Hf).
      assert (H3 : availableActions (cmp w3) = availableActions (cmp w)
                   /\ newCustomerChecked (cmp w3) = newCustomerChecked (cmp w)
                   /\ _autoNextFired (cmp w3) = _autoNextFired (cmp w)).
      { subst w3. unfold _clearTimers. repeat (case_match; simpl); auto. }
      destruct H3 as (Hav3 & Hn3 & Hf3).
      rewrite Hav, Hn, Hav3, Hn3. repeat split.
      * intros H. apply Hf. left. congruence.
      * intros H _. apply Hf. right.
        rewrite (canNext_frame (cmp w) (cmp w3)); auto.
  - unfold handleNext, isCreateBtnDisabled.
    destruct (newCustomerChecked (cmp w)) eqn:Hchk; simpl.
    + destruct (tryNext_after (_clearTimers w)) as (Hav & Hn & Hf).
      destruct (clearTimers_gate w) as (_ & Ha1 & Hav1 & Hn1).
      rewrite Hav, Hn, Hav1, Hn1. repeat split; auto.
      * intros H. apply Hf. left. congruence.
      * intros H _. apply Hf. right.
        rewrite (canNext_frame (cmp w) (cmp (_clearTimers w))); auto.
    + repeat split; auto. discriminate.
Qed.

Lemma gate_inv_request r w : gate_inv w -> gate_inv (request r w).
Proof.
  intros Hinv. destruct r as [|id|].
  - apply (gate_inv_run_callback CbTryNext), Hinv.
  - apply gate_inv_handleRowClick, Hinv.
  - apply (gate_inv_step NextClick), Hinv.
Qed.

Lemma requests_keep_fired rs w :
  gate_inv w -> _autoNextFired (cmp w) = true ->
  gate_inv (requests rs w) /\ _autoNextFired (cmp (requests rs w)) = true.
Proof.
  revert w. induction rs as [|r rs IH]; intros w Hinv Hf; simpl; [auto|].
  apply IH; [apply gate_inv_request, Hinv|].
  destruct (request_after r w) as (_ & _ & Hkeep & _). auto.
Qed.

(** C2: in a session whose workflow permits NEXT, after any N >= 1
    requests to advance, from whichever of the three call sites and in any
    order, exactly one advance signal has been dispatched; once the gate
    has fired, [_tryNext] changes nothing. *)
Theorem C2_exactly_one_advance (w : World) (rs : list AdvanceRequest) :
  reachable w -> canNext (cmp w) = true -> rs <> [] ->
  forallb (reaches_gate w) rs = true ->
  advance_count (requests rs w) = 1%nat
  /\ (_autoNextFired (cmp w) = false -> advance_count w = 0%nat)
  /\ (forall w', _autoNextFired (cmp w') = true -> _tryNext w' = w').
Proof.
  intros Hr Hc Hne Hall.
  pose proof (reachable_gate_inv w Hr) as Hinv.
  split; [|split].
  - destruct rs as [|r rs]; [congruence|]. simpl in Hall.
    apply andb_prop in Hall as [Hr1 _]. simpl.
    destruct (request_after r w) as (_ & _ & _ & Hfire).
    destruct (requests_keep_fired rs (request r w)) as [Hinv' Hf'].
    + apply gate_inv_request, Hinv.
    + auto.
    + unfold requests in *. rewrite Hinv', Hf'. reflexivity.
  - intros Hf. rewrite Hinv, Hf. reflexivity.
  - apply tryNext_fired.
Qed.

Lemma C2_exactly_one_advance_witness :
  let w := run [NewCustomerCheckbox true]
             (init WoonstadBussDuplicateCheck (JArr [JStr (str "NEXT")])) in
  let rs := [ByRowClick (str "001xx000003DGb2"); ByExpiry; ByAdvanceButton;
             ByRowClick (str "001xx000003DGb2")] in
  advance_count (requests rs w) = 1%nat
  /\ (_autoNextFired (cmp w) = false -> advance_count w = 0%nat)
  /\ (forall w', _autoNextFired (cmp w') = true -> _tryNext w' = w').
Proof.
  apply (C2_exactly_one_advance
           (run [NewCustomerCheckbox true]
              (init WoonstadBussDuplicateCheck (JArr [JStr (str "NEXT")])))
           [ByRowClick (str "001xx000003DGb2"); ByExpiry; ByAdvanceButton;
            ByRowClick (str "001xx000003DGb2")]).
  - exists WoonstadBussDuplicateCheck, (JArr [JStr (str "NEXT")]),
      [NewCustomerCheckbox true]. reflexivity.
  - vm_compute. reflexivity.
  - discriminate.
  - vm_compute. reflexivity.
Defined.

(** ** The debounced dispatcher *)

Lemma map_or_empty (l : list jsstring) : List.map or_empty l = l.
Proof. induction l as [|[|c s] l IH]; simpl; rewrite ?IH; reflexivity. Qed.

Lemma set_criterion_frame i v w :
  _fetchInFlight (cmp (set_criterion i v w)) = _fetchInFlight (cmp w)
  /\ calls (set_criterion i v w) = calls w
  /\ outstanding (set_criterion i v w) = outstanding w
  /\ now (set_criterion i v w) = now w.
Proof.
  unfold set_criterion, _scheduleFetch. repeat (case_match; simpl); auto.
Qed.

Lemma set_criterion_replaces i v w :
  wf w -> _fetchInFlight (cmp w) = false ->
  _hasAnyInput (cmp (set_criterion i v w)) = true ->
  replaces_debounce w (set_criterion i v w).
Proof.
  intros [Hfresh Htr] Hfl Hin.
  unfold _hasAnyInput in Hin. rewrite criteria_set_criterion in Hin.
  unfold set_criterion, _scheduleFetch in *. cbn [with_cmp cmp].
  unfold _hasAnyInput.
  cbn [criteria set_criteria _fetchInFlight _debounceId]. rewrite Hin, Hfl.
  cbn [negb].
  destruct (_debounceId (cmp w)) as [d0|] eqn:Ed.
  - split.
    + intros d t Hd Hdeb. simpl.
      pose proof (tracked_is_debounce _ _ _ (Htr _ _ Hd) Hdeb) as Hh.
      rewrite Ed in Hh. injection Hh as ->.
      rewrite lookup_insert_ne by (apply Hfresh in Hd; lia).
      apply lookup_delete_eq.
    + exists (next_timer w). split; [reflexivity|]. split.
      * simpl. rewrite lookup_insert_eq. reflexivity.
      * simpl. intros d' t H Hdeb. lookup_cases H; [reflexivity|].
        pose proof (tracked_is_debounce _ _ _ (Htr _ _ H) Hdeb). congruence.
  - split.
    + intros d t Hd Hdeb.
      pose proof (tracked_is_debounce _ _ _ (Htr _ _ Hd) Hdeb). congruence.
    + exists (next_timer w). split; [reflexivity|]. split.
      * simpl. rewrite lookup_insert_eq. reflexivity.
      * simpl. intros d' t H Hdeb. lookup_cases H; [reflexivity|].
        pose proof (tracked_is_debounce _ _ _ (Htr _ _ H) Hdeb). congruence.
Qed.

Lemma fetch_timers_sub sig w id t :
  timers (_fetch sig w) !! id = Some t -> timers w !! id = Some t.
Proof.
  unfold _fetch, _clearTimers.
  repeat (case_match; simpl); intros Hlive; lookup_cases Hlive; assumption.
Qed.

Lemma fetch_calls sig w :
  _fetchInFlight (cmp w) = false ->
  calls (_fetch sig w) = calls w ++ [criteria (cmp w)].
Proof.
  intros Hfl. unfold _fetch, _clearTimers. rewrite Hfl.
  repeat (case_match; simpl); rewrite map_or_empty; reflexivity.
Qed.

(** A timeout does not run before it is due, and runs once it is. *)
Lemma fire_not_due d due cb w :
  timers w !! d = Some (Timeout due cb) -> (now w < due)%Z -> fire d w = w.
Proof.
  intros Hlive Hlt. unfold fire. rewrite Hlive.
  destruct (Z.leb_spec due (now w)); [lia | reflexivity].
Qed.

Lemma fire_due d due cb w :
  timers w !! d = Some (Timeout due cb) -> (due <= now w)%Z ->
  fire d w = run_callback cb (clearTimer d w).
Proof.
  intros Hlive Hle. unfold fire. rewrite Hlive.
  destruct (Z.leb_spec due (now w)); [reflexivity | lia].
Qed.

Lemma step_elapse ms w : (0 <= ms)%Z -> step (Elapse ms) w = elapse ms w.
Proof. intros H. simpl. destruct (Z.leb_spec 0 ms); [reflexivity | lia]. Qed.

Lemma sole_debounce_quiet w d ms :
  sole_debounce w d -> (0 <= ms < 100)%Z ->
  fire d (step (Elapse ms) w) = step (Elapse ms) w.
Proof.
  intros (_ & Hlive & _) Hms. rewrite step_elapse by lia.
  apply (fire_not_due d (now w + 100) (CbFetch (_signature (cmp w))));
    [exact Hlive | simpl; lia].
Qed.

Lemma sole_debounce_fires w d quiet :
  _fetchInFlight (cmp w) = false -> sole_debounce w d -> (100 <= quiet)%Z ->
  calls (fire d (step (Elapse quiet) w)) = calls w ++ [criteria (cmp w)]
  /\ forall d' t, timers (fire d (step (Elapse quiet) w)) !! d' = Some t ->
                  is_debounce t = false.
Proof.
  intros Hfl (Hh & Hlive & Hsole) Hq. rewrite step_elapse by lia.
  rewrite (fire_due d (now w + 100) (CbFetch (_signature (cmp w))))
    by (simpl; first [exact Hlive | lia]).
  cbn [run_callback]. split.
  - rewrite fetch_calls by exact Hfl. reflexivity.
  - intros d' t H. apply fetch_timers_sub in H. simpl in H.
    lookup_cases H. destruct (is_debounce t) eqn:E; [|reflexivity].
    specialize (Hsole _ _ H E). congruence.
Qed.

(** Less than 100 ms after a call that armed the debounce timer, the
    timer's chance to fire changes nothing. *)
Lemma call_then_wait_quiet c w :
  wf w -> _fetchInFlight (cmp w) = false ->
  _hasAnyInput (cmp (set_criterion (field c) (value c) w)) = true ->
  (0 <= gap c < 100)%Z ->
  call_then_wait c w = elapse (gap c) (set_criterion (field c) (value c) w).
Proof.
  intros Hwf Hfl Hin Hgap.
  destruct (set_criterion_replaces _ _ w Hwf Hfl Hin) as [_ [d Hsole]].
  unfold call_then_wait, try_debounce.
  pose proof (sole_debounce_quiet _ d (gap c) Hsole Hgap) as Hquiet.
  rewrite step_elapse in * by lia.
  destruct Hsole as (Hh & _). cbn [elapse cmp]. rewrite Hh. exact Hquiet.
Qed.

Lemma burst_runs w0 w burst :
  wf w -> _fetchInFlight (cmp w) = false -> calls w = calls w0 ->
  within_quiet_period burst = true ->
  leaves_input (criteria (cmp w)) burst = true ->
  burst_from w0 w burst.
Proof.
  revert w. induction burst as [|c rest IH]; intros w Hwf Hfl Hcalls Hq Hin;
    [exact I|].
  cbn [leaves_input] in Hin. apply andb_prop in Hin as [Hin1 Hin2].
  rewrite <- criteria_set_criterion in Hin1, Hin2.
  destruct (set_criterion_frame (field c) (value c) w) as (Hfl1 & Hcalls1 & _).
  pose proof (set_criterion_replaces _ _ w Hwf Hfl Hin1) as Hrep.
  cbn [burst_from]. split; [exact Hrep|].
  destruct rest as [|c' rest].
  - cbn [within_quiet_period] in Hq. apply Z.leb_le in Hq.
    destruct Hrep as [_ [d Hsole]].
    split; [congruence|]. exists d. split; [exact Hsole|].
    split; [intros ms Hms; apply sole_debounce_quiet; assumption|].
    assert (Hfl' : _fetchInFlight (cmp (set_criterion (field c) (value c) w))
                   = false) by congruence.
    destruct (sole_debounce_fires _ d (gap c) Hfl' Hsole Hq) as [Hc Hnone].
    split; [|exact Hnone]. rewrite Hc. congruence.
  - cbn [within_quiet_period] in Hq.
    apply andb_prop in Hq as [Hq Hq']. apply andb_prop in Hq as [Hq1 Hq2].
    apply Z.leb_le in Hq1. apply Z.ltb_lt in Hq2.
    rewrite call_then_wait_quiet by (auto; lia).
    apply IH.
    + apply wf_elapse, wf_set_criterion, Hwf.
    + simpl. congruence.
    + simpl. congruence.
    + exact Hq'.
    + exact Hin2.
Qed.

(** C3, for calls that leave input: in a burst of setter calls that follow
    each other within the quiet period of 100 ms, none of which leaves all
    criteria empty, made while no fetch is in flight: each call cancels the
    debounce timer that has not fired and installs a new one; nothing is
    sent during the burst; and once the quiet period has passed after the
    last call, one lookup is sent for the burst, with the signature and the
    criteria of the last call. *)
Theorem C3_burst_coalesces (w : World) (burst : list Call) :
  wf w -> _fetchInFlight (cmp w) = false -> burst <> [] ->
  within_quiet_period burst = true ->
  leaves_input (criteria (cmp w)) burst = true ->
  burst_claim w burst.
Proof.
  intros Hwf Hfl _ Hq Hin. apply burst_runs; auto.
Qed.

Lemma C3_burst_coalesces_witness :
  burst_claim (init WoonstadDuplicateCheck NEXT_permitted)
    [ {| field := Person.email; value := typed "a"; gap := 40 |};
      {| field := Person.email; value := typed "ab"; gap := 99 |};
      {| field := Person.phone; value := typed " 010 "; gap := 0 |};
      {| field := Person.email; value := typed ""; gap := 100 |} ].
Proof.
  apply (C3_burst_coalesces (init WoonstadDuplicateCheck NEXT_permitted)
    [ {| field := Person.email; value := typed "a"; gap := 40 |};
      {| field := Person.email; value := typed "ab"; gap := 99 |};
      {| field := Person.phone; value := typed " 010 "; gap := 0 |};
      {| field := Person.email; value := typed ""; gap := 100 |} ]).
  - apply wf_init.
  - reflexivity.
  - discriminate.
  - vm_compute. reflexivity.
  - vm_compute. reflexivity.
Defined.

(** C3 does not hold for every burst: the second call of this one, 50 ms
    after the first, empties the criteria and returns before it touches the
    debounce timer of the first call. *)
Lemma C3_counterexample :
  ~ burst_claim (init WoonstadDuplicateCheck NEXT_permitted)
      [ {| field := Person.email; value := typed "a"; gap := 50 |};
        {| field := Person.email; value := typed ""; gap := 100 |} ].
Proof.
  intros (_ & (Hcancel & _) & _).
  specialize (Hcancel 1%positive (Timeout 100 (CbFetch (str "a||")))).
  vm_compute in Hcancel. specialize (Hcancel eq_refl eq_refl). discriminate.
Qed.

(** C4, evaluated on the code: the user types an e-mail address and
    empties the field again while the debounce timer of the keystroke
    (handle 1) is pending.  The guard of [_scheduleFetch] returns before the
    timer is cleared, so the timer stays live although no criterion has
    input; when it fires 100 ms later a lookup with all parameters empty is
    sent and counts as a completed fetch with inputs, and once that lookup
    settles without matches the countdown runs and the session advances.  A
    call that leaves input does cancel the pending timer.  Emptying the
    field while the countdown runs leaves the tick and the expiry timer
    live as well. *)
Theorem C4_cleared_dispatch_survives :
  let w := step (SetCriterion Person.email (typed "a"))
             (init WoonstadDuplicateCheck NEXT_permitted) in
  let w1 := step (SetCriterion Person.email (typed "")) w in
  let w2 := run [Elapse 100; TimerFires 1] w1 in
  let w3 := run [CallSettles 1 (Resolved (JArr [])); Elapse 5000;
                 TimerFires 3] w2 in
  reachable w3
  /\ ~ cleared_claim w Person.email (typed "")
  /\ (_hasAnyInput (cmp w1) = false
      /\ timers w1 !! 1%positive = Some (Timeout 100 (CbFetch (str "a||"))))
  /\ (calls w2 = [[ []; []; [] ]]
      /\ outstanding w2 !! 1%positive = Some [ []; []; [] ])
  /\ (_hasCompletedFetchWithInputs (cmp w3) = true /\ advance_count w3 = 1%nat)
  /\ timers (step (SetCriterion Person.email (typed "ab")) w) !! 1%positive
     = None
  /\ ~ cleared_claim counting_down Person.email (typed "").
Proof.
  split.
  { exists WoonstadDuplicateCheck, NEXT_permitted,
      [SetCriterion Person.email (typed "a");
       SetCriterion Person.email (typed ""); Elapse 100; TimerFires 1;
       CallSettles 1 (Resolved (JArr [])); Elapse 5000; TimerFires 3].
    vm_compute. reflexivity. }
  split.
  { intros Hclaim. destruct (Hclaim eq_refl) as [Hcancel _].
    destruct (Hcancel 1%positive (Timeout 100 (CbFetch (str "a||"))) eq_refl)
      as [Hdeb _].
    discriminate Hdeb. }
  split; [vm_compute; split; reflexivity|].
  split; [vm_compute; split; reflexivity|].
  split; [vm_compute; split; reflexivity|].
  split; [vm_compute; reflexivity|].
  intros Hclaim. destruct (Hclaim eq_refl) as [Hcancel _].
  destruct (Hcancel 3%positive (Timeout 5350 CbTryNext) eq_refl) as [_ Hcd].
  discriminate Hcd.
Qed.

(** ** The countdown *)

Lemma fire_interval_not_due i period due cb w :
  timers w !! i = Some (Interval period due cb) -> (now w < due)%Z ->
  fire i w = w.
Proof.
  intros Hlive Hlt. unfold fire. rewrite Hlive.
  destruct (Z.leb_spec due (now w)); [lia | reflexivity].
Qed.

(** A second passes and the tick interval, due by then, runs: the
    remaining seconds go down by one unless they are 0, and the interval is
    due again a second later. *)
Lemma tick_second i w :
  timers w !! i = Some (Interval 1000 (now w + 1000) CbTick) ->
  let w' := run [Elapse 1000; TimerFires i] w in
  timers w' !! i = Some (Interval 1000 (now w' + 1000) CbTick)
  /\ secondsRemaining (cmp w')
     = (if (secondsRemaining (cmp w) >? 0)%Z
        then secondsRemaining (cmp w) - 1 else secondsRemaining (cmp w))%Z.
Proof.
  intros Hlive. cbn [run fold_left]. rewrite step_elapse by lia.
  cbn [step]. unfold fire. cbn [elapse timers now]. rewrite Hlive.
  destruct (Z.leb_spec (now w + 1000) (now w + 1000)); [|lia].
  cbn [run_callback elapse cmp]. unfold rearmTimer.
  destruct (secondsRemaining (cmp w) >? 0)%Z; simpl; rewrite Hlive; simpl;
    rewrite lookup_insert_eq; auto.
Qed.

Lemma ticks_succ n i w :
  ticks (S n) i w = ticks n i (run [Elapse 1000; TimerFires i] w).
Proof. reflexivity. Qed.

Lemma ticks_count n i w :
  timers w !! i = Some (Interval 1000 (now w + 1000) CbTick) ->
  (0 <= secondsRemaining (cmp w))%Z ->
  secondsRemaining (cmp (ticks n i w))
  = Z.max 0 (secondsRemaining (cmp w) - Z.of_nat n)
  /\ timers (ticks n i w) !! i
     = Some (Interval 1000 (now (ticks n i w) + 1000) CbTick).
Proof.
  revert w. induction n as [|n IH]; intros w Hlive Hpos.
  - unfold ticks; simpl. split; [lia | exact Hlive].
  - rewrite ticks_succ.
    destruct (tick_second i w Hlive) as [Hlive' Hs].
    destruct (IH (run [Elapse 1000; TimerFires i] w) Hlive') as [IHs IHt].
    + rewrite Hs. destruct (Z.gtb_spec (secondsRemaining (cmp w)) 0); lia.
    + rewrite IHs, Hs. split; [|exact IHt].
      destruct (Z.gtb_spec (secondsRemaining (cmp w)) 0); lia.
Qed.

Lemma canNext_clearTimers w : canNext (cmp (_clearTimers w)) = canNext (cmp w).
Proof.
  apply canNext_frame. destruct (clearTimers_gate w) as (_ & _ & Hav & _).
  exact Hav.
Qed.

Lemma rows_clearTimers w : rows (cmp (_clearTimers w)) = rows (cmp w).
Proof. unfold _clearTimers. repeat (case_match; simpl); reflexivity. Qed.

(** What [_startCountdownAndAutoNext(5)] leaves when the workflow permits
    NEXT, in a world with no countdown timer. *)
Lemma countdown_armed w3 :
  wf w3 ->
  (forall id t, timers w3 !! id = Some t -> is_countdown t = false) ->
  rows (cmp w3) = [] ->
  let i := next_timer w3 in
  let t := Pos.succ i in
  countdown_started
    (with_cmp (set__fetchInFlight false)
       (with_cmp (set__timeoutId (Some t))
          (snd (setTimeout CbTryNext (5 * 1000)
             (with_cmp (set__intervalId (Some i))
                (snd (setInterval CbTick 1000
                   (with_cmp (set_secondsRemaining 5) w3)))))))).
Proof.
  intros [Hfresh Htr] Hnone Hrows i t.
  assert (Hit : i <> t) by (subst t; lia).
  set (w' := with_cmp (set__fetchInFlight false) _).
  assert (Hi : timers w' !! i = Some (Interval 1000 (now w' + 1000) CbTick)).
  { subst w'. simpl. rewrite lookup_insert_ne by (subst t i; lia).
    apply lookup_insert_eq. }
  assert (Ht : timers w' !! t = Some (Timeout (now w' + 5000) CbTryNext)).
  { subst w'. simpl. apply lookup_insert_eq. }
  split; [exact Hrows|]. split; [reflexivity|].
  exists i, t. split; [exact Hit|]. split; [reflexivity|]. split; [reflexivity|].
  split; [exact Hi|]. split; [exact Ht|]. split; [|split; [|split; [|split]]].
  - subst w'. simpl. intros id tm H Hcd. lookup_cases H; auto.
    rewrite (Hnone _ _ H) in Hcd. discriminate.
  - intros ms Hms. rewrite step_elapse by lia.
    apply (fire_interval_not_due i 1000 (now w' + 1000) CbTick);
      [exact Hi | simpl; lia].
  - intros n. apply (ticks_count n i w'); [exact Hi | simpl; lia].
  - intros ms Hms. rewrite step_elapse by lia.
    apply (fire_not_due t (now w' + 5000) CbTryNext); [exact Ht | simpl; lia].
  - intros ms Hms. rewrite step_elapse by lia.
    apply (fire_due t (now w' + 5000) CbTryNext); [exact Ht | simpl; lia].
Qed.

(** C6, with the workflow guard: when a call settles without matches (an
    error included) while no refetch is pending, the rows are empty; if the
    workflow permits NEXT the countdown starts at 5, with an interval of
    1000 ms whose tick decrements the remaining seconds down to 0 and one
    timeout of 5000 ms whose callback is [_tryNext]; if it does not, no
    countdown timer is set. *)
Theorem C6_countdown_starts (w : World) (o : Outcome) :
  wf w -> settled_rows o = [] -> _needsRefetch (cmp w) = false ->
  let w' := fetch_resume o w in
  rows (cmp w') = []
  /\ (canNext (cmp w) = true -> countdown_started w')
  /\ (canNext (cmp w) = false ->
      _intervalId (cmp w') = None /\ _timeoutId (cmp w') = None
      /\ forall id t, timers w' !! id = Some t -> is_countdown t = false).
Proof.
  intros Hwf Hrows Hnr w'. subst w'.
  split; [rewrite rows_fetch_resume; exact Hrows|].
  rewrite fetch_resume_unfold, Hrows.
  set (w2 := with_cmp _ w).
  assert (Hwf2 : wf w2) by (apply wf_with_cmp; auto).
  unfold after_settle, _startCountdownAndAutoNext.
  replace (hasRows (cmp w2)) with false by reflexivity.
  replace (_needsRefetch (cmp w2)) with false by (symmetry; exact Hnr).
  replace (_hasCompletedFetchWithInputs (cmp w2)) with true by reflexivity.
  cbn [negb orb].
  pose proof (wf_clearTimers w2 Hwf2) as Hwf3.
  pose proof (fun id t => clearTimers_no_countdown w2 id t Hwf2) as Hnone.
  assert (Hcan3 : canNext (cmp (_clearTimers w2)) = canNext (cmp w))
    by (rewrite canNext_clearTimers; reflexivity).
  assert (Hrows3 : rows (cmp (_clearTimers w2)) = [])
    by (rewrite rows_clearTimers; reflexivity).
  assert (Hh3 : _intervalId (cmp (_clearTimers w2)) = None
                /\ _timeoutId (cmp (_clearTimers w2)) = None).
  { unfold _clearTimers. repeat (case_match; simpl); auto. }
  generalize dependent (_clearTimers w2). clear w2 Hwf2.
  intros w3 Hwf3 Hnone Hcan3 Hrows3 [Hi3 Ht3]. rewrite Hcan3. split.
  - intros Hcan. rewrite Hcan. cbn [negb].
    exact (countdown_armed w3 Hwf3 Hnone Hrows3).
  - intros Hcan. rewrite Hcan. cbn [negb with_cmp cmp timers].
    repeat split; auto.
Qed.

Lemma C6_countdown_starts_witness :
  let w' := fetch_resume Rejected first_lookup_outstanding in
  rows (cmp w') = []
  /\ (canNext (cmp first_lookup_outstanding) = true -> countdown_started w')
  /\ (canNext (cmp first_lookup_outstanding) = false ->
      _intervalId (cmp w') = None /\ _timeoutId (cmp w') = None
      /\ forall id t, timers w' !! id = Some t -> is_countdown t = false).
Proof.
  apply (C6_countdown_starts first_lookup_outstanding Rejected).
  - apply wf_run, wf_init.
  - reflexivity.
  - reflexivity.
Defined.

(** C6 does not hold without NEXT: with the default [availableActions] the
    call settles without matches and no countdown is started. *)
Lemma C6_counterexample :
  let w := run [SetCriterion Person.email (typed "a@wsr.nl"); Elapse 100;
                TimerFires 1]
             (init WoonstadDuplicateCheck (JArr [])) in
  settled_rows (Resolved (JArr [])) = []
  /\ _needsRefetch (cmp w) = false
  /\ ~ countdown_started (fetch_resume (Resolved (JArr [])) w).
Proof.
  split; [reflexivity|]. split; [reflexivity|].
  intros (_ & _ & i & t & _ & Hi & _). vm_compute in Hi. discriminate.
Qed.

(** ** The fetch coordinator *)




(** The [finally] block lowers the in-flight flag on every path, also when
    the settled call has just started the next one. *)
Lemma fetch_resume_lowers_flag o w : _fetchInFlight (cmp (fetch_resume o w)) = false.
Proof. rewrite fetch_resume_unfold. reflexivity. Qed.

(** A call that settles without matches (or fails) while a refetch is
    pending takes the latch and sends one more lookup, with the criteria of
    that moment. *)
Lemma settle_empty_refetches o w :
  settled_rows o = [] -> _needsRefetch (cmp w) = true ->
  let w' := fetch_resume o w in
  calls w' = calls w ++ [criteria (cmp w)]
  /\ outstanding w' = <[next_call w := criteria (cmp w)]> (outstanding w)
  /\ _needsRefetch (cmp w') = false /\ _pendingSig (cmp w') = [].
Proof.
  intros Hrows Hnr w'. subst w'. rewrite fetch_resume_unfold, Hrows.
  unfold after_settle, refetch, _fetch, _clearTimers.
  cbn [with_cmp cmp hasRows rows set_rows set_message set_loading
       set__hasCompletedFetchWithInputs set__needsRefetch set__pendingSig
       set__fetchInFlight _needsRefetch _fetchInFlight _intervalId _timeoutId].
  rewrite Hnr.
  repeat (case_match; simpl); rewrite map_or_empty; auto.
Qed.

(** A call that settles with matches leaves a pending refetch where it is:
    nothing is sent and the latch stays set. *)
Lemma settle_matches_keeps_latch o w :
  settled_rows o <> [] ->
  let w' := fetch_resume o w in
  calls w' = calls w /\ outstanding w' = outstanding w
  /\ _needsRefetch (cmp w') = _needsRefetch (cmp w)
  /\ _pendingSig (cmp w') = _pendingSig (cmp w).
Proof.
  intros Hrows w'. subst w'. rewrite fetch_resume_unfold.
  unfold after_settle, hasRows. cbn [with_cmp cmp rows set_rows set_message
    set_loading set__hasCompletedFetchWithInputs].
  destruct (settled_rows o); [congruence|].
  unfold _clearTimers. repeat (case_match; simpl); auto.
Qed.

(** While a fetch is in flight a setter call records the current signature
    as the one pending refetch, over any earlier one, and sets no timer. *)
Lemma set_criterion_in_flight i v w :
  _fetchInFlight (cmp w) = true ->
  _hasAnyInput (cmp (set_criterion i v w)) = true ->
  let w' := set_criterion i v w in
  _needsRefetch (cmp w') = true
  /\ _pendingSig (cmp w') = _signature (cmp w')
  /\ timers w' = timers w /\ calls w' = calls w.
Proof.
  intros Hfl Hin w'. subst w'.
  unfold _hasAnyInput in Hin. rewrite criteria_set_criterion in Hin.
  unfold set_criterion, _scheduleFetch, _hasAnyInput.
  cbn [with_cmp cmp criteria set_criteria _fetchInFlight].
  rewrite Hin, Hfl. cbn [negb]. repeat split; reflexivity.
Qed.

(** C1, evaluated on the code: lookup 1 is outstanding and the e-mail field
    changes, so a refetch is pending.  If lookup 1 settles without matches
    or fails, one more lookup is sent at once with the new criteria.  If it
    settles with a match, no lookup is sent, and the latch and the pending
    signature stay set. *)
Theorem C1_match_skips_pending_refetch :
  let w := step (SetCriterion Person.email (typed "b@wsr.nl"))
             first_lookup_outstanding in
  let hit := JObj [(str "results", JArr [JObj [(str "Id", JStr (str "001"))]])] in
  let w' := step (CallSettles 1 (Resolved hit)) w in
  (_needsRefetch (cmp w) = true /\ _pendingSig (cmp w) = str "b@wsr.nl||")
  /\ calls (step (CallSettles 1 (Resolved (JArr []))) w)
     = calls w ++ [[str "b@wsr.nl"; []; []]]
  /\ calls (step (CallSettles 1 Rejected) w)
     = calls w ++ [[str "b@wsr.nl"; []; []]]
  /\ calls w' = calls w /\ outstanding w' = ∅
  /\ _needsRefetch (cmp w') = true /\ _pendingSig (cmp w') = str "b@wsr.nl||"
  /\ rows (cmp w') = [JObj [(str "Id", JStr (str "001"))]].
Proof. vm_compute. repeat split; reflexivity. Qed.

(** C5, evaluated on the code: lookup 1 settles without matches while a
    refetch is pending, so lookup 2 is sent; the [finally] block of the
    settled call then lowers [_fetchInFlight] although lookup 2 is
    outstanding.  The next keystroke therefore arms the debounce timer, and
    when it fires 100 ms later lookup 3 is sent while lookup 2 is still
    outstanding. *)
Theorem C5_second_lookup_in_flight :
  let w1 := run [SetCriterion Person.email (typed "b@wsr.nl");
                 CallSettles 1 (Resolved (JArr []))] first_lookup_outstanding in
  let w2 := run [SetCriterion Person.email (typed "c@wsr.nl"); Elapse 100;
                 TimerFires 2] w1 in
  reachable w2
  /\ (outstanding w1 = {[ 2%positive := [str "b@wsr.nl"; []; []] ]}
      /\ _fetchInFlight (cmp w1) = false)
  /\ outstanding w2 !! 2%positive = Some [str "b@wsr.nl"; []; []]
  /\ outstanding w2 !! 3%positive = Some [str "c@wsr.nl"; []; []]
  /\ size (outstanding w2) = 2%nat.
Proof.
  split.
  - exists WoonstadDuplicateCheck, NEXT_permitted,
      [SetCriterion Person.email (typed "a@wsr.nl"); Elapse 100; TimerFires 1;
       SetCriterion Person.email (typed "b@wsr.nl");
       CallSettles 1 (Resolved (JArr []));
       SetCriterion Person.email (typed "c@wsr.nl"); Elapse 100; TimerFires 2].
    vm_compute. reflexivity.
  - vm_compute. repeat split; reflexivity.
Qed.

(** * Further properties of the session *)

(** ** The workflow's permission *)

Lemma actions_clearTimers w :
  availableActions (cmp (_clearTimers w)) = availableActions (cmp w).
Proof. destruct (clearTimers_gate w) as (_ & _ & H & _). exact H. Qed.

Lemma actions_tryNext w :
  availableActions (cmp (_tryNext w)) = availableActions (cmp w).
Proof. destruct (tryNext_after w) as (H & _). exact H. Qed.

Lemma actions_fetch sig w :
  availableActions (cmp (_fetch sig w)) = availableActions (cmp w).
Proof. unfold _fetch, _clearTimers. repeat (case_match; simpl); reflexivity. Qed.

Lemma actions_after_settle w :
  availableActions (cmp (after_settle w)) = availableActions (cmp w).
Proof. frame. Qed.

Lemma actions_fetch_resume o w :
  availableActions (cmp (fetch_resume o w)) = availableActions (cmp w).
Proof. rewrite fetch_resume_unfold. simpl. rewrite actions_after_settle. reflexivity. Qed.

Lemma actions_run_callback cb w :
  availableActions (cmp (run_callback cb w)) = availableActions (cmp w).
Proof.
  destruct cb; cbn [run_callback].
  - apply actions_fetch.
  - case_match; reflexivity.
  - apply actions_tryNext.
Qed.

Lemma cmp_rearmTimer id w : cmp (rearmTimer id w) = cmp w.
Proof. unfold rearmTimer. repeat case_match; reflexivity. Qed.

Lemma actions_fire id w :
  availableActions (cmp (fire id w)) = availableActions (cmp w).
Proof.
  unfold fire. repeat case_match; try reflexivity.
  - apply (actions_run_callback _ (clearTimer id w)).
  - rewrite cmp_rearmTimer. apply actions_run_callback.
Qed.

Lemma actions_handleRowClick id w :
  availableActions (cmp (handleRowClick id w)) = availableActions (cmp w).
Proof.
  destruct id as [[|c id]|]; simpl; try reflexivity.
  rewrite actions_tryNext, actions_clearTimers. reflexivity.
Qed.

Lemma actions_step e w :
  availableActions (cmp (step e w)) = availableActions (cmp w).
Proof.
  destruct e as [ms|i v|id|call o|id|key id|checked|]; cbn [step].
  - case_match; reflexivity.
  - unfold set_criterion, _scheduleFetch. repeat (case_match; simpl); reflexivity.
  - apply actions_fire.
  - case_match; [apply (actions_fetch_resume o (settle call w)) | reflexivity].
  - apply actions_handleRowClick.
  - unfold handleRowKeydown. repeat case_match; try reflexivity;
      apply actions_handleRowClick.
  - unfold handleNewCustomerCheckbox. destruct checked; reflexivity.
  - unfold handleNext. case_match; [reflexivity|].
    rewrite actions_tryNext, actions_clearTimers. reflexivity.
Qed.

Lemma canNext_step e w : canNext (cmp (step e w)) = canNext (cmp w).
Proof. apply canNext_frame, actions_step. Qed.

Lemma canNext_run es w : canNext (cmp (run es w)) = canNext (cmp w).
Proof.
  revert w. induction es as [|e es IH]; intros w; [reflexivity|].
  cbn [run fold_left]. unfold run in IH. rewrite IH. apply canNext_step.
Qed.

Lemma tryNext_fired_cases w :
  _autoNextFired (cmp (_tryNext w)) = true ->
  _autoNextFired (cmp w) = true \/ canNext (cmp w) = true.
Proof.
  destruct (_autoNextFired (cmp w)) eqn:Hf; [auto|].
  destruct (canNext (cmp w)) eqn:Hc; [auto|].
  rewrite tryNext_blocked by assumption.
  destruct (clearTimers_gate w) as (_ & Ha & _). rewrite Ha, Hf. discriminate.
Qed.

Lemma fired_handleRowClick id w :
  _autoNextFired (cmp (handleRowClick id w)) = true ->
  _autoNextFired (cmp w) = true \/ canNext (cmp w) = true.
Proof.
  destruct id as [[|c id]|]; simpl; auto.
  intros Hf. apply tryNext_fired_cases in Hf.
  rewrite (canNext_frame _ _ (actions_clearTimers _)) in Hf.
  match type of Hf with context [_clearTimers ?x] =>
    destruct (clearTimers_gate x) as (_ & Ha & _); rewrite Ha in Hf end.
  exact Hf.
Qed.

Lemma fired_step e w :
  _autoNextFired (cmp (step e w)) = true ->
  _autoNextFired (cmp w) = true \/ canNext (cmp w) = true.
Proof.
  destruct e as [ms|i v|id|call o|id|key id|checked|]; cbn [step].
  - case_match; auto.
  - unfold set_criterion.
    destruct (scheduleFetch_gate 100
      (with_cmp (fun c => set_criteria (<[i:=normalize v]> (criteria c)) c) w))
      as [_ ->]. auto.
  - unfold fire.
    destruct (timers w !! id) as [[due cb|period due cb]|]; auto;
      destruct (due <=? now w)%Z; auto.
    + destruct cb; cbn [run_callback].
      * destruct (fetch_gate sig (clearTimer id w)) as [_ ->]. auto.
      * case_match; auto.
      * apply (tryNext_fired_cases (clearTimer id w)).
    + rewrite cmp_rearmTimer. destruct cb; cbn [run_callback].
      * destruct (fetch_gate sig w) as [_ ->]. auto.
      * case_match; auto.
      * apply tryNext_fired_cases.
  - case_match; auto.
    destruct (fetch_resume_gate o (settle call w)) as [_ ->]. auto.
  - apply fired_handleRowClick.
  - unfold handleRowKeydown. destruct key as [k|]; auto.
    destruct (_ || _); auto. apply fired_handleRowClick.
  - unfold handleNewCustomerCheckbox. destruct checked; simpl; auto.
  - unfold handleNext. case_match; auto.
    intros Hf. apply tryNext_fired_cases in Hf.
    rewrite canNext_clearTimers in Hf.
    destruct (clearTimers_gate w) as (_ & Ha & _). rewrite Ha in Hf. exact Hf.
Qed.

Lemma fired_needs_permission es k actions :
  _autoNextFired (cmp (run es (init k actions))) = true ->
  canNext (init_component k actions) = true.
Proof.
  assert (H : forall w,
             (_autoNextFired (cmp w) = true -> canNext (cmp w) = true) ->
             _autoNextFired (cmp (run es w)) = true ->
             canNext (cmp w) = true).
  { induction es as [|e es IH]; intros w Hw Hf; [auto|].
    cbn [run fold_left] in Hf. rewrite <- (canNext_step e w).
    apply IH; [|exact Hf].
    intros Hf'. rewrite canNext_step.
    destruct (fired_step e w Hf'); auto. }
  apply (H (init k actions)). discriminate.
Qed.

(** X1: a session advances only by permission.  Whenever an advance signal
    has been dispatched the workflow permits NEXT; in a session whose
    workflow does not, no task ever dispatches one and the gate stays
    unfired. *)
Theorem advance_only_by_permission (w : World) :
  reachable w ->
  (advance_count w = 1%nat -> canNext (cmp w) = true)
  /\ (canNext (cmp w) = false ->
      advance_count w = 0%nat /\ _autoNextFired (cmp w) = false).
Proof.
  intros Hr. pose proof (reachable_gate_inv w Hr) as Hinv.
  destruct Hr as (k & actions & es & ->).
  pose proof (fired_needs_permission es k actions) as Hperm.
  rewrite canNext_run. cbn [init cmp] in *.
  unfold gate_inv in Hinv.
  destruct (_autoNextFired (cmp (run es (init k actions)))) eqn:Hf.
  - split; [auto|]. intros Hc. rewrite Hperm in Hc by reflexivity. discriminate.
  - split; [rewrite Hinv; discriminate | auto].
Qed.

Lemma advance_only_by_permission_witness :
  let w := run [SetCriterion Person.email (typed "a@wsr.nl"); Elapse 100;
                TimerFires 1; CallSettles 1 Rejected; Elapse 5000;
                TimerFires 3; RowClick (Some (str "001")); NextClick]
             (init WoonstadDuplicateCheck (JArr [JStr (str "BACK")])) in
  (advance_count w = 1%nat -> canNext (cmp w) = true)
  /\ (canNext (cmp w) = false ->
      advance_count w = 0%nat /\ _autoNextFired (cmp w) = false).
Proof.
  apply (advance_only_by_permission
           (run [SetCriterion Person.email (typed "a@wsr.nl"); Elapse 100;
                 TimerFires 1; CallSettles 1 Rejected; Elapse 5000;
                 TimerFires 3; RowClick (Some (str "001")); NextClick]
              (init WoonstadDuplicateCheck (JArr [JStr (str "BACK")])))).
  exists WoonstadDuplicateCheck, (JArr [JStr (str "BACK")]),
    [SetCriterion Person.email (typed "a@wsr.nl"); Elapse 100;
     TimerFires 1; CallSettles 1 Rejected; Elapse 5000;
     TimerFires 3; RowClick (Some (str "001")); NextClick].
  reflexivity.
Defined.

(** ** Timer discipline *)

Lemma tracked_kind c id t :
  tracked c id t -> exists k, timer_kind t = Some k /\ handle_of k c = Some id.
Proof.
  destruct t as [due []|period due []]; simpl; intros H; try contradiction.
  - exists Debounce; auto.
  - exists Expiry; auto.
  - exists Tick; auto.
Qed.

(** X2: in every state of a session each live timer is a debounce
    timeout, the tick interval or the expiry timeout, it is the one whose
    handle the component holds, and so at most one timer of each kind is
    live. *)
Theorem one_timer_of_each_kind (w : World) (id : positive) (t : Timer) :
  reachable w -> timers w !! id = Some t ->
  exists k, timer_kind t = Some k
            /\ handle_of k (cmp w) = Some id
            /\ forall id' t', timers w !! id' = Some t' ->
                              timer_kind t' = Some k -> id' = id.
Proof.
  intros Hr Hlive. destruct (reachable_wf w Hr) as [_ Htr].
  destruct (tracked_kind _ _ _ (Htr _ _ Hlive)) as (k & Hk & Hh).
  exists k. split; [exact Hk|]. split; [exact Hh|].
  intros id' t' Hlive' Hk'.
  destruct (tracked_kind _ _ _ (Htr _ _ Hlive')) as (k' & Hk'' & Hh').
  assert (k' = k) by congruence. subst k'. congruence.
Qed.

Lemma one_timer_of_each_kind_witness :
  exists k, timer_kind (Timeout 5350 CbTryNext) = Some k
            /\ handle_of k (cmp counting_down) = Some 3%positive
            /\ forall id' t', timers counting_down !! id' = Some t' ->
                              timer_kind t' = Some k -> id' = 3%positive.
Proof.
  apply (one_timer_of_each_kind counting_down 3%positive (Timeout 5350 CbTryNext)).
  - exists WoonstadDuplicateCheck, NEXT_permitted,
      [SetCriterion Person.email (typed "a@wsr.nl"); Elapse 100; TimerFires 1;
       Elapse 250; CallSettles 1 (Resolved (JArr []))].
    vm_compute. reflexivity.
  - vm_compute. reflexivity.
Defined.

(** ** The Flow outputs *)

Lemma same_outputs_refl w : same_outputs w w.
Proof. repeat split. Qed.

Lemma same_outputs_trans w1 w2 w3 :
  same_outputs w1 w2 -> same_outputs w2 w3 -> same_outputs w1 w3.
Proof. intros (A & B & C) (A' & B' & C'). repeat split; congruence. Qed.

Lemma outputs_clearTimers w : same_outputs w (_clearTimers w).
Proof. unfold same_outputs, _clearTimers. repeat (case_match; simpl); auto. Qed.

Lemma outputs_tryNext w : same_outputs w (_tryNext w).
Proof.
  unfold _tryNext. destruct (_autoNextFired (cmp w)); [apply same_outputs_refl|].
  destruct (negb (canNext (cmp w))); [apply outputs_clearTimers|].
  destruct (outputs_clearTimers (with_cmp (set__autoNextFired true) w))
    as (A & B & C).
  unfold same_outputs. cbn [dispatchEvent cmp dispatched].
  rewrite List.filter_app, A, B, C. simpl. rewrite app_nil_r. auto.
Qed.

Lemma outputs_fetch sig w : same_outputs w (_fetch sig w).
Proof.
  unfold _fetch. destruct (_fetchInFlight (cmp w)); [apply same_outputs_refl|].
  destruct (outputs_clearTimers
              (with_cmp (fun c => set_loading true (set__fetchInFlight true c)) w))
    as (A & B & C).
  unfold same_outputs. cbn [callApex cmp dispatched]. rewrite A, B, C. auto.
Qed.

Lemma outputs_startCountdown seconds w :
  same_outputs w (_startCountdownAndAutoNext seconds w).
Proof.
  unfold _startCountdownAndAutoNext.
  destruct (_ || _); [apply same_outputs_refl|].
  destruct (outputs_clearTimers w) as (A & B & C).
  destruct (negb (canNext (cmp (_clearTimers w)))); [repeat split; assumption|].
  unfold same_outputs. simpl. auto.
Qed.

Lemma outputs_after_settle w : same_outputs w (after_settle w).
Proof.
  unfold after_settle. destruct (hasRows (cmp w)); [apply outputs_clearTimers|].
  destruct (_needsRefetch (cmp w)); [|apply outputs_startCountdown].
  unfold refetch.
  eapply same_outputs_trans; [|apply outputs_fetch]. repeat split.
Qed.

Lemma outputs_fetch_resume o w : same_outputs w (fetch_resume o w).
Proof.
  rewrite fetch_resume_unfold.
  match goal with |- context [after_settle ?x] =>
    destruct (outputs_after_settle x) as (A & B & C) end.
  unfold same_outputs. cbn [with_cmp cmp dispatched set__fetchInFlight
    selectedExisting selectedAccountId]. rewrite A, B, C. auto.
Qed.

Lemma outputs_run_callback cb w : same_outputs w (run_callback cb w).
Proof.
  destruct cb; cbn [run_callback].
  - apply outputs_fetch.
  - case_match; repeat split.
  - apply outputs_tryNext.
Qed.

Lemma outputs_fire id w : same_outputs w (fire id w).
Proof.
  unfold fire.
  destruct (timers w !! id) as [[due cb|period due cb]|];
    try apply same_outputs_refl; destruct (due <=? now w)%Z;
    try apply same_outputs_refl.
  - eapply same_outputs_trans; [|apply outputs_run_callback]. repeat split.
  - eapply same_outputs_trans; [apply outputs_run_callback|].
    unfold same_outputs, rearmTimer. repeat case_match; auto.
Qed.

(** X3: only the user's selection writes the Flow outputs.  Time, the
    criteria setters, the timers, the settlement of a lookup and the
    advance button leave [selectedExisting] and [selectedAccountId] as they
    are and dispatch no attribute-change event. *)
Theorem search_leaves_outputs (e : Input) (w : World) :
  leaves_outputs e = true -> same_outputs w (step e w).
Proof.
  destruct e as [ms|i v|id|call o|id|key id|checked|]; cbn [leaves_outputs step];
    intros He; try discriminate.
  - case_match; repeat split.
  - unfold set_criterion, _scheduleFetch, same_outputs.
    repeat (case_match; simpl); auto.
  - apply outputs_fire.
  - case_match; [|apply same_outputs_refl].
    eapply same_outputs_trans; [|apply outputs_fetch_resume]. repeat split.
  - unfold handleNext. case_match; [apply same_outputs_refl|].
    eapply same_outputs_trans; [apply outputs_clearTimers | apply outputs_tryNext].
Qed.

Lemma search_leaves_outputs_witness :
  let w := run [RowClick (Some (str "001"))] first_lookup_outstanding in
  same_outputs w (step (CallSettles 1 Rejected) w).
Proof.
  apply (search_leaves_outputs (CallSettles 1 Rejected)
           (run [RowClick (Some (str "001"))] first_lookup_outstanding)).
  reflexivity.
Defined.

(** ** Selection and the advance button *)

Lemma no_countdown_clearTimers w : wf w -> no_countdown (_clearTimers w).
Proof. intros Hwf id t H. exact (clearTimers_no_countdown w id t Hwf H). Qed.

Lemma clearTimers_twice_timers w :
  wf w -> no_countdown (_tryNext (_clearTimers w)).
Proof.
  intros Hwf. pose proof (no_countdown_clearTimers w Hwf) as Hnone.
  pose proof (wf_clearTimers w Hwf) as Hwf'.
  unfold _tryNext. destruct (_autoNextFired (cmp (_clearTimers w))); [exact Hnone|].
  destruct (negb (canNext (cmp (_clearTimers w)))).
  - apply no_countdown_clearTimers, Hwf'.
  - intros id t H. cbn [dispatchEvent timers] in H.
    apply (no_countdown_clearTimers
             (with_cmp (set__autoNextFired true) (_clearTimers w))) in H;
      [exact H | apply wf_with_cmp; auto].
Qed.

Lemma tryNext_dispatched w :
  dispatched (_tryNext w)
  = dispatched w ++ (if negb (_autoNextFired (cmp w)) && canNext (cmp w)
                     then [FlowNavigationNextEvent] else []).
Proof.
  unfold _tryNext. destruct (_autoNextFired (cmp w)); cbn [negb andb];
    [rewrite app_nil_r; reflexivity|].
  destruct (canNext (cmp w)); cbn [negb dispatchEvent dispatched].
  - destruct (clearTimers_gate (with_cmp (set__autoNextFired true) w)) as (-> & _).
    reflexivity.
  - destruct (clearTimers_gate w) as (-> & _). rewrite app_nil_r. reflexivity.
Qed.

Lemma tryNext_calls w : calls (_tryNext w) = calls w.
Proof. frame. Qed.

Lemma clearTimers_calls w : calls (_clearTimers w) = calls w.
Proof. frame. Qed.

(** X4: a click on a row that carries an id records the selection,
    dispatches the two attribute changes before any advance signal, cancels
    the countdown whether or not the gate opens, and sends no lookup; a
    click on a row without an id does nothing. *)
Theorem row_click_selects (w : World) (id : jsstring) :
  wf w -> id <> [] ->
  let w' := handleRowClick (Some id) w in
  selectedExisting (cmp w') = true /\ selectedAccountId (cmp w') = id
  /\ dispatched w'
     = dispatched w
       ++ [FlowAttributeChangeEvent (str "selectedExisting") (JBool true);
           FlowAttributeChangeEvent (str "selectedAccountId") (JStr id)]
       ++ (if negb (_autoNextFired (cmp w)) && canNext (cmp w)
           then [FlowNavigationNextEvent] else [])
  /\ no_countdown w' /\ calls w' = calls w
  /\ handleRowClick None w = w /\ handleRowClick (Some []) w = w.
Proof.
  intros Hwf Hid w'. subst w'. destruct id as [|c id]; [congruence|].
  cbn [handleRowClick].
  set (w3 := dispatchEvent _ (dispatchEvent _ (with_cmp _ w))).
  assert (Hwf3 : wf w3).
  { subst w3. repeat apply wf_dispatchEvent. apply wf_with_cmp; auto. }
  destruct (outputs_tryNext (_clearTimers w3)) as (A & B & _).
  destruct (outputs_clearTimers w3) as (A' & B' & _).
  destruct (clearTimers_gate w3) as (Hd & Hf & Hav & _).
  split; [rewrite A, A'; reflexivity|]. split; [rewrite B, B'; reflexivity|].
  split.
  { rewrite tryNext_dispatched, Hd, Hf.
    rewrite (canNext_frame (cmp w3) (cmp (_clearTimers w3))) by exact Hav.
    subst w3. cbn [dispatchEvent dispatched cmp with_cmp].
    rewrite <- !app_assoc. reflexivity. }
  split; [apply clearTimers_twice_timers, Hwf3|].
  split; [rewrite tryNext_calls, clearTimers_calls; reflexivity|].
  split; reflexivity.
Qed.

Lemma row_click_selects_witness :
  let w := counting_down in
  let id := str "001xx000003DGb2" in
  let w' := handleRowClick (Some id) w in
  selectedExisting (cmp w') = true /\ selectedAccountId (cmp w') = id
  /\ dispatched w'
     = dispatched w
       ++ [FlowAttributeChangeEvent (str "selectedExisting") (JBool true);
           FlowAttributeChangeEvent (str "selectedAccountId") (JStr id)]
       ++ (if negb (_autoNextFired (cmp w)) && canNext (cmp w)
           then [FlowNavigationNextEvent] else [])
  /\ no_countdown w' /\ calls w' = calls w
  /\ handleRowClick None w = w /\ handleRowClick (Some []) w = w.
Proof.
  apply (row_click_selects counting_down (str "001xx000003DGb2")).
  - apply wf_run, wf_run, wf_init.
  - discriminate.
Defined.

(** X5: ticking the checkbox and pressing the advance button resets the
    Flow outputs to "no existing record", dispatches the two attribute
    changes and then, if the gate is unfired and NEXT is permitted, the
    advance signal; with the checkbox unticked the button does nothing. *)
Theorem create_new_advances (w : World) :
  let w1 := handleNewCustomerCheckbox true w in
  let w' := handleNext w1 in
  selectedExisting (cmp w') = false /\ selectedAccountId (cmp w') = []
  /\ dispatched w'
     = dispatched w
       ++ [FlowAttributeChangeEvent (str "selectedExisting") (JBool false);
           FlowAttributeChangeEvent (str "selectedAccountId") (JStr [])]
       ++ (if negb (_autoNextFired (cmp w)) && canNext (cmp w)
           then [FlowNavigationNextEvent] else [])
  /\ handleNext (handleNewCustomerCheckbox false w)
     = handleNewCustomerCheckbox false w.
Proof.
  cbv zeta. set (w1 := handleNewCustomerCheckbox true w).
  assert (H1 : newCustomerChecked (cmp w1) = true
               /\ selectedExisting (cmp w1) = false
               /\ selectedAccountId (cmp w1) = []
               /\ dispatched w1
                  = dispatched w
                    ++ [FlowAttributeChangeEvent (str "selectedExisting") (JBool false);
                        FlowAttributeChangeEvent (str "selectedAccountId") (JStr [])]
               /\ _autoNextFired (cmp w1) = _autoNextFired (cmp w)
               /\ availableActions (cmp w1) = availableActions (cmp w)).
  { subst w1. unfold handleNewCustomerCheckbox. simpl.
    rewrite <- app_assoc. repeat split; reflexivity. }
  clearbody w1. destruct H1 as (Hchk & Hsel & Hid & Hdisp & Hfired & Hact).
  split; [|split; [|split]].
  - unfold handleNext, isCreateBtnDisabled. rewrite Hchk. cbn [negb].
    destruct (outputs_tryNext (_clearTimers w1)) as (A & _).
    destruct (outputs_clearTimers w1) as (A' & _). congruence.
  - unfold handleNext, isCreateBtnDisabled. rewrite Hchk. cbn [negb].
    destruct (outputs_tryNext (_clearTimers w1)) as (_ & B & _).
    destruct (outputs_clearTimers w1) as (_ & B' & _). congruence.
  - unfold handleNext, isCreateBtnDisabled. rewrite Hchk. cbn [negb].
    destruct (clearTimers_gate w1) as (Hd & Hf & Hav & _).
    rewrite tryNext_dispatched, Hd, Hf, Hdisp, Hfired.
    rewrite (canNext_frame (cmp w1) (cmp (_clearTimers w1))) by exact Hav.
    rewrite (canNext_frame (cmp w) (cmp w1)) by exact Hact.
    rewrite <- !app_assoc. reflexivity.
  - reflexivity.
Qed.

(** ** The countdown runs only over the empty state *)

Lemma clearTimers_cmp w :
  cmp (_clearTimers w) = set__timeoutId None (set__intervalId None (cmp w)).
Proof. unfold _clearTimers. repeat case_match; reflexivity. Qed.

Lemma countdown_inv_frame w w' :
  (forall id t, timers w' !! id = Some t -> is_countdown t = true ->
                exists t0, timers w !! id = Some t0 /\ is_countdown t0 = true) ->
  rows (cmp w') = rows (cmp w) -> loading (cmp w') = loading (cmp w) ->
  _hasCompletedFetchWithInputs (cmp w') = _hasCompletedFetchWithInputs (cmp w) ->
  _needsRefetch (cmp w') = _needsRefetch (cmp w) ->
  _fetchInFlight (cmp w') = _fetchInFlight (cmp w) ->
  availableActions (cmp w') = availableActions (cmp w) ->
  countdown_inv w -> countdown_inv w'.
Proof.
  intros Hsub Hr Hl Hc Hn Hf Ha [Hnone|Hgood].
  - left. intros id t H. destruct (is_countdown t) eqn:E; [|reflexivity].
    destruct (Hsub _ _ H E) as (t0 & H0 & E0).
    rewrite (Hnone _ _ H0) in E0. discriminate.
  - right. rewrite Hr, Hl, Hc, Hn, Hf, (canNext_frame _ _ Ha). exact Hgood.
Qed.

Lemma countdown_inv_tryNext w : wf w -> countdown_inv w -> countdown_inv (_tryNext w).
Proof.
  intros Hwf Hci. unfold _tryNext.
  destruct (_autoNextFired (cmp w)); [exact Hci|].
  destruct (negb (canNext (cmp w))).
  - left. apply no_countdown_clearTimers, Hwf.
  - left. intros id t.
    apply (no_countdown_clearTimers (with_cmp (set__autoNextFired true) w)).
    apply wf_with_cmp; auto.
Qed.

Lemma countdown_inv_fetch sig w : wf w -> countdown_inv w -> countdown_inv (_fetch sig w).
Proof.
  intros Hwf Hci. unfold _fetch.
  destruct (_fetchInFlight (cmp w)); [exact Hci|].
  left. intros id t.
  apply (no_countdown_clearTimers
           (with_cmp (fun c => set_loading true (set__fetchInFlight true c)) w)).
  apply wf_with_cmp; auto.
Qed.

Lemma no_countdown_with_cmp f w : no_countdown w -> no_countdown (with_cmp f w).
Proof. intros H id t. exact (H id t). Qed.

Lemma no_countdown_callApex params w :
  no_countdown w -> no_countdown (callApex params w).
Proof. intros H id t. exact (H id t). Qed.

Lemma no_countdown_refetch w : wf w -> no_countdown (refetch w).
Proof.
  intros Hwf. unfold refetch, _fetch.
  change (_fetchInFlight (cmp (with_cmp _ w))) with false. cbv iota.
  apply no_countdown_callApex, no_countdown_clearTimers.
  apply wf_with_cmp; auto. apply wf_with_cmp; auto.
Qed.

Lemma startCountdown_fields seconds w :
  let w' := _startCountdownAndAutoNext seconds w in
  rows (cmp w') = rows (cmp w) /\ loading (cmp w') = loading (cmp w)
  /\ _hasCompletedFetchWithInputs (cmp w') = _hasCompletedFetchWithInputs (cmp w)
  /\ _needsRefetch (cmp w') = _needsRefetch (cmp w)
  /\ availableActions (cmp w') = availableActions (cmp w).
Proof.
  unfold _startCountdownAndAutoNext.
  destruct (_ || _); [repeat split|].
  destruct (negb (canNext (cmp (_clearTimers w)))).
  - rewrite clearTimers_cmp. repeat split.
  - cbn [with_cmp cmp setTimeout setInterval addTimer snd].
    rewrite clearTimers_cmp. repeat split.
Qed.

Lemma startCountdown_blocked seconds w :
  wf w -> _hasCompletedFetchWithInputs (cmp w) = true ->
  _needsRefetch (cmp w) = false -> canNext (cmp w) = false ->
  no_countdown (_startCountdownAndAutoNext seconds w).
Proof.
  intros Hwf Hdone Hn Hcan. unfold _startCountdownAndAutoNext.
  rewrite Hdone, Hn. cbn [negb orb].
  rewrite (canNext_frame _ _ (actions_clearTimers w)), Hcan. cbn [negb].
  apply no_countdown_clearTimers, Hwf.
Qed.

(** Whatever came before, a settlement leaves the countdown consistent. *)
Lemma countdown_inv_after_settle w :
  wf w -> loading (cmp w) = false ->
  _hasCompletedFetchWithInputs (cmp w) = true ->
  countdown_inv (with_cmp (set__fetchInFlight false) (after_settle w)).
Proof.
  intros Hwf Hload Hdone. unfold after_settle, hasRows.
  destruct (rows (cmp w)) as [|r rs] eqn:Hrows.
  - destruct (_needsRefetch (cmp w)) eqn:Hn.
    + left. apply no_countdown_with_cmp, no_countdown_refetch, Hwf.
    + destruct (canNext (cmp w)) eqn:Hcan.
      * right.
        destruct (startCountdown_fields 5 w) as (Hr & Hl & Hd & Hnr & Ha).
        change (rows (cmp (_startCountdownAndAutoNext 5 w)) = []
                /\ loading (cmp (_startCountdownAndAutoNext 5 w)) = false
                /\ _hasCompletedFetchWithInputs
                     (cmp (_startCountdownAndAutoNext 5 w)) = true
                /\ _needsRefetch (cmp (_startCountdownAndAutoNext 5 w)) = false
                /\ false = false
                /\ canNext (set__fetchInFlight false
                              (cmp (_startCountdownAndAutoNext 5 w))) = true).
        rewrite Hr, Hl, Hd, Hnr.
        rewrite (canNext_frame (cmp w)) by exact Ha. repeat split; assumption.
      * left. apply no_countdown_with_cmp, startCountdown_blocked; assumption.
  - left. apply no_countdown_with_cmp, no_countdown_clearTimers, Hwf.
Qed.

Lemma countdown_inv_fetch_resume o w : wf w -> countdown_inv (fetch_resume o w).
Proof.
  intros Hwf. rewrite fetch_resume_unfold.
  apply countdown_inv_after_settle; [apply wf_with_cmp; auto | reflexivity..].
Qed.

Lemma countdown_inv_scheduleFetch delayMs w :
  wf w -> countdown_inv w -> countdown_inv (_scheduleFetch delayMs w).
Proof.
  intros [Hfresh Htr] Hci. unfold _scheduleFetch.
  destruct (negb (_hasAnyInput (cmp w))); [exact Hci|].
  destruct (_fetchInFlight (cmp w)) eqn:Hfl.
  - destruct Hci as [Hnone|(_ & _ & _ & _ & Hf & _)]; [|congruence].
    left. exact Hnone.
  - destruct (_debounceId (cmp w)) as [d|];
      (apply (countdown_inv_frame w); try reflexivity; [|exact Hci]);
      intros id t H E; simpl in H; lookup_cases H; try discriminate; eauto.
Qed.

Lemma countdown_inv_handleRowClick id w :
  wf w -> countdown_inv w -> countdown_inv (handleRowClick id w).
Proof.
  intros Hwf Hci. destruct id as [[|c id]|]; cbn [handleRowClick]; try exact Hci.
  left. apply clearTimers_twice_timers.
  repeat apply wf_dispatchEvent. apply wf_with_cmp; auto.
Qed.

Lemma countdown_inv_step e w : wf w -> countdown_inv w -> countdown_inv (step e w).
Proof.
  intros Hwf Hci. destruct e as [ms|i v|id|call o|id|key id|checked|]; cbn [step].
  - case_match; [|exact Hci].
    apply (countdown_inv_frame w); try reflexivity; [|exact Hci]. simpl. eauto.
  - apply countdown_inv_scheduleFetch; [apply wf_with_cmp; auto|].
    apply (countdown_inv_frame w); try reflexivity; [|exact Hci]. simpl. eauto.
  - unfold fire.
    destruct (timers w !! id) as [[due cb|period due cb]|] eqn:Hlive; [| |exact Hci];
      destruct (due <=? now w)%Z; try exact Hci.
    + assert (Hci1 : countdown_inv (clearTimer id w)).
      { apply (countdown_inv_frame w); try reflexivity; [|exact Hci].
        intros id' t H E. simpl in H. lookup_cases H. eauto. }
      pose proof (wf_clearTimer id w Hwf) as Hwf1.
      destruct cb; cbn [run_callback].
      * apply countdown_inv_fetch; assumption.
      * case_match; [|exact Hci1].
        apply (countdown_inv_frame (clearTimer id w)); try reflexivity;
          [|exact Hci1]. simpl. eauto.
      * apply countdown_inv_tryNext; assumption.
    + assert (Hcb : countdown_inv (run_callback cb w)).
      { destruct cb; cbn [run_callback].
        - apply countdown_inv_fetch; assumption.
        - case_match; [|exact Hci].
          apply (countdown_inv_frame w); try reflexivity; [|exact Hci].
          simpl. eauto.
        - apply countdown_inv_tryNext; assumption. }
      apply (countdown_inv_frame (run_callback cb w));
        try (rewrite cmp_rearmTimer; reflexivity); [|exact Hcb].
      intros id' t H E. unfold rearmTimer in H.
      destruct (timers (run_callback cb w) !! id) as [[due' cb'|p' due' cb']|] eqn:H';
        try (eexists; split; eassumption).
      simpl in H. lookup_cases H; [|eauto].
      exists (Interval p' due' cb'). split; [exact H'|]. exact E.
  - case_match; [|exact Hci]. apply countdown_inv_fetch_resume, wf_settle, Hwf.
  - apply countdown_inv_handleRowClick; assumption.
  - unfold handleRowKeydown. destruct key as [k|]; [|exact Hci].
    destruct (_ || _); [|exact Hci]. apply countdown_inv_handleRowClick; assumption.
  - apply (countdown_inv_frame w); try (unfold handleNewCustomerCheckbox;
      destruct checked; reflexivity); [|exact Hci].
    intros id t H E. unfold handleNewCustomerCheckbox in H.
    destruct checked; simpl in H; eauto.
  - unfold handleNext. case_match; [exact Hci|].
    left. apply clearTimers_twice_timers, Hwf.
Qed.

Lemma reachable_countdown_inv w : reachable w -> countdown_inv w.
Proof.
  intros (k & actions & es & ->).
  assert (H : forall w, wf w -> countdown_inv w -> countdown_inv (run es w)).
  { induction es as [|e es IH]; intros w Hwf Hci; [exact Hci|].
    cbn [run fold_left]. apply IH; [apply wf_step, Hwf|].
    apply countdown_inv_step; assumption. }
  apply H; [apply wf_init|]. left. intros id t Hl.
  simpl in Hl. rewrite lookup_empty in Hl. discriminate.
Qed.

(** X6: the countdown runs only over the empty state of a completed fetch.
    In every state of a session, while the tick interval or the expiry
    timeout is live the component shows the empty state (no rows, not
    loading, a fetch completed, no refetch pending), no fetch is marked in
    flight and the workflow permits NEXT. *)
Theorem countdown_only_over_empty_state (w : World) (id : positive) (t : Timer) :
  reachable w -> timers w !! id = Some t -> is_countdown t = true ->
  showEmptyState (cmp w) = true
  /\ _fetchInFlight (cmp w) = false /\ canNext (cmp w) = true.
Proof.
  intros Hr Hlive Hcd.
  destruct (reachable_countdown_inv w Hr) as [Hnone|Hgood].
  - rewrite (Hnone _ _ Hlive) in Hcd. discriminate.
  - destruct Hgood as (Hrows & Hload & Hdone & Hnr & Hfl & Hcan).
    unfold showEmptyState, hasRows. rewrite Hrows, Hload, Hdone, Hnr. auto.
Qed.

Lemma countdown_only_over_empty_state_witness :
  showEmptyState (cmp counting_down) = true
  /\ _fetchInFlight (cmp counting_down) = false
  /\ canNext (cmp counting_down) = true.
Proof.
  apply (countdown_only_over_empty_state counting_down 2%positive
           (Interval 1000 1350 CbTick)).
  - exists WoonstadDuplicateCheck, NEXT_permitted,
      [SetCriterion Person.email (typed "a@wsr.nl"); Elapse 100; TimerFires 1;
       Elapse 250; CallSettles 1 (Resolved (JArr []))].
    vm_compute. reflexivity.
  - vm_compute. reflexivity.
  - reflexivity.
Defined.

(** ** The spinner *)

Lemma busy_inv_frame w w' : same_busy w w' -> busy_inv w -> busy_inv w'.
Proof. intros (Hl & Hf & Ho) Hb. unfold busy_inv in *. rewrite Hl, Hf, Ho. exact Hb. Qed.

Lemma busy_clearTimers w : same_busy w (_clearTimers w).
Proof. unfold same_busy. rewrite clearTimers_cmp. unfold _clearTimers.
  repeat case_match; auto. Qed.

Lemma busy_tryNext w : same_busy w (_tryNext w).
Proof.
  unfold _tryNext. repeat case_match; try (repeat split; fail).
  - apply busy_clearTimers.
  - destruct (busy_clearTimers (with_cmp (set__autoNextFired true) w))
      as (A & B & C). repeat split; assumption.
Qed.

Lemma busy_inv_fetch sig w : busy_inv w -> busy_inv (_fetch sig w).
Proof.
  intros Hb. unfold _fetch. destruct (_fetchInFlight (cmp w)); [exact Hb|].
  intros _. cbn [callApex outstanding]. apply insert_non_empty.
Qed.

Lemma busy_inv_after_settle w :
  loading (cmp w) = false ->
  busy_inv (with_cmp (set__fetchInFlight false) (after_settle w)).
Proof.
  intros Hload. unfold after_settle.
  destruct (hasRows (cmp w)).
  - intros [H|H]; [|discriminate H].
    change (loading (cmp (_clearTimers w)) = true) in H.
    destruct (busy_clearTimers w) as (A & _). congruence.
  - destruct (_needsRefetch (cmp w)).
    + intros _. unfold refetch, _fetch.
      change (_fetchInFlight (cmp (with_cmp _ w))) with false. cbv iota.
      cbn [with_cmp callApex outstanding]. apply insert_non_empty.
    + intros [H|H]; [|discriminate H].
      change (loading (cmp (_startCountdownAndAutoNext 5 w)) = true) in H.
      destruct (startCountdown_fields 5 w) as (_ & A & _). congruence.
Qed.

Lemma busy_inv_step e w : busy_inv w -> busy_inv (step e w).
Proof.
  intros Hb. destruct e as [ms|i v|id|call o|id|key id|checked|]; cbn [step].
  - case_match; exact Hb.
  - apply (busy_inv_frame w); [|exact Hb].
    unfold same_busy, set_criterion, _scheduleFetch.
    repeat (case_match; simpl); auto.
  - unfold fire.
    destruct (timers w !! id) as [[due cb|period due cb]|]; try exact Hb;
      destruct (due <=? now w)%Z; try exact Hb.
    + destruct cb; cbn [run_callback].
      * apply busy_inv_fetch. exact Hb.
      * case_match; exact Hb.
      * apply (busy_inv_frame (clearTimer id w)); [apply busy_tryNext | exact Hb].
    + assert (Hcb : busy_inv (run_callback cb w)).
      { destruct cb; cbn [run_callback].
        - apply busy_inv_fetch, Hb.
        - case_match; exact Hb.
        - apply (busy_inv_frame w); [apply busy_tryNext | exact Hb]. }
      apply (busy_inv_frame (run_callback cb w)); [|exact Hcb].
      unfold same_busy, rearmTimer. repeat case_match; auto.
  - case_match; [|exact Hb]. rewrite fetch_resume_unfold.
    apply busy_inv_after_settle. reflexivity.
  - destruct id as [[|c id]|]; cbn [handleRowClick]; try exact Hb.
    match goal with |- busy_inv (_tryNext (_clearTimers ?x)) =>
      apply (busy_inv_frame (_clearTimers x)); [apply busy_tryNext|];
      apply (busy_inv_frame x); [apply busy_clearTimers|] end.
    exact Hb.
  - unfold handleRowKeydown. destruct key as [k|]; [|exact Hb].
    destruct (_ || _); [|exact Hb].
    destruct id as [[|c id]|]; cbn [handleRowClick]; try exact Hb.
    match goal with |- busy_inv (_tryNext (_clearTimers ?x)) =>
      apply (busy_inv_frame (_clearTimers x)); [apply busy_tryNext|];
      apply (busy_inv_frame x); [apply busy_clearTimers|] end.
    exact Hb.
  - unfold handleNewCustomerCheckbox. destruct checked; exact Hb.
  - unfold handleNext. case_match; [exact Hb|].
    apply (busy_inv_frame (_clearTimers w)); [apply busy_tryNext|].
    apply (busy_inv_frame w); [apply busy_clearTimers | exact Hb].
Qed.

Lemma reachable_busy_inv w : reachable w -> busy_inv w.
Proof.
  intros (k & actions & es & ->).
  assert (H : forall w, busy_inv w -> busy_inv (run es w)).
  { induction es as [|e es IH]; intros w Hb; [exact Hb|].
    cbn [run fold_left]. apply IH, busy_inv_step, Hb. }
  apply H. intros [Hl|Hf]; discriminate.
Qed.

(** X7: the spinner never turns without a lookup behind it.  In every
    state of a session, when [loading] or [_fetchInFlight] is set a remote
    call is outstanding. *)
Theorem spinner_means_lookup_outstanding (w : World) :
  reachable w ->
  loading (cmp w) = true \/ _fetchInFlight (cmp w) = true ->
  exists call params, outstanding w !! call = Some params.
Proof.
  intros Hr Hbusy. apply map_choose. exact (reachable_busy_inv w Hr Hbusy).
Qed.

Lemma spinner_means_lookup_outstanding_witness :
  exists call params, outstanding first_lookup_outstanding !! call = Some params.
Proof.
  apply (spinner_means_lookup_outstanding first_lookup_outstanding).
  - exists WoonstadDuplicateCheck, NEXT_permitted,
      [SetCriterion Person.email (typed "a@wsr.nl"); Elapse 100; TimerFires 1].
    vm_compute. reflexivity.
  - left. vm_compute. reflexivity.
Defined.

(** ** The signature *)

Lemma split_at_bar (p q r r' : jsstring) :
  no_bar p -> no_bar q -> p ++ bar :: r = q ++ bar :: r' -> p = q /\ r = r'.
Proof.
  unfold no_bar. revert q. induction p as [|a p IH]; intros [|b q] Hp Hq Heq;
    simpl in Heq.
  - injection Heq as ->. auto.
  - injection Heq as <- _. exfalso. apply Hq. left.
  - injection Heq as -> _. exfalso. apply Hp. left.
  - injection Heq as -> Heq.
    destruct (IH q) as [-> ->]; auto.
    + intros Hin. apply Hp. right. exact Hin.
    + intros Hin. apply Hq. right. exact Hin.
Qed.

Lemma join_bar_cons p p' ps :
  join (str "|") (p :: p' :: ps) = p ++ bar :: join (str "|") (p' :: ps).
Proof. reflexivity. Qed.

Lemma join_bar_inj (l1 l2 : list jsstring) :
  List.length l1 = List.length l2 -> Forall no_bar l1 -> Forall no_bar l2 ->
  join (str "|") l1 = join (str "|") l2 -> l1 = l2.
Proof.
  revert l2. induction l1 as [|p l1 IH]; intros [|q l2] Hlen H1 H2 Heq;
    try discriminate; [reflexivity|].
  injection Hlen as Hlen.
  apply Forall_cons in H1 as [Hp H1]. apply Forall_cons in H2 as [Hq H2].
  destruct l1 as [|p' l1], l2 as [|q' l2]; try discriminate.
  - simpl in Heq. congruence.
  - rewrite !join_bar_cons in Heq.
    destruct (split_at_bar _ _ _ _ Hp Hq Heq) as [-> Hrest].
    f_equal. apply IH; auto.
Qed.

(** X8: the signature tells criteria apart as long as no field contains
    the separator.  Two components with the same number of criteria, none
    of which contains a vertical bar, have the same signature only if
    their criteria are equal. *)
Theorem signature_determines_criteria (c1 c2 : Component) :
  List.length (criteria c1) = List.length (criteria c2) ->
  Forall no_bar (criteria c1) -> Forall no_bar (criteria c2) ->
  _signature c1 = _signature c2 -> criteria c1 = criteria c2.
Proof. unfold _signature. apply join_bar_inj. Qed.

Lemma signature_determines_criteria_witness :
  let c1 := set_criteria [str "a@wsr.nl"; str "010"; []]
              (init_component WoonstadDuplicateCheck NEXT_permitted) in
  let c2 := set_criteria [str "a@wsr.nl"; str "010"; []]
              (init_component WoonstadDuplicateCheck (JArr [])) in
  criteria c1 = criteria c2.
Proof.
  apply (signature_determines_criteria
           (set_criteria [str "a@wsr.nl"; str "010"; []]
              (init_component WoonstadDuplicateCheck NEXT_permitted))
           (set_criteria [str "a@wsr.nl"; str "010"; []]
              (init_component WoonstadDuplicateCheck (JArr [])))).
  - vm_compute. reflexivity.
  - apply (bool_decide_unpack _). vm_compute. exact I.
  - apply (bool_decide_unpack _). vm_compute. exact I.
  - vm_compute. reflexivity.
Defined.

(** Without that restriction the signature is ambiguous: a bar typed into a
    field shifts the boundary. *)
Lemma signature_collision :
  join (str "|") [str "a|"; str "b"; []] = join (str "|") [str "a"; str "|b"; []].
Proof. reflexivity. Qed.

(** ** Settlements *)

Lemma timers_after_refetch w id t :
  timers (refetch w) !! id = Some t -> timers w !! id = Some t.
Proof. unfold refetch. intros H. apply fetch_timers_sub in H. exact H. Qed.

Lemma after_settle_refetch w :
  hasRows (cmp w) = false -> _needsRefetch (cmp w) = true ->
  after_settle w = refetch w.
Proof. intros Hh Hn. unfold after_settle. rewrite Hh, Hn. reflexivity. Qed.

Lemma after_settle_rows w :
  hasRows (cmp w) = true -> after_settle w = _clearTimers w.
Proof. intros Hh. unfold after_settle. rewrite Hh. reflexivity. Qed.

Lemma cmp_with_cmp f w : cmp (with_cmp f w) = f (cmp w).
Proof. reflexivity. Qed.

Lemma timers_with_cmp f w : timers (with_cmp f w) = timers w.
Proof. reflexivity. Qed.

Lemma loading_lower_flag b c : loading (set__fetchInFlight b c) = loading c.
Proof. reflexivity. Qed.

Lemma fetch_start sig w :
  _fetchInFlight (cmp w) = false ->
  _fetch sig w
  = callApex
      (List.map or_empty
         (criteria (cmp (_clearTimers
            (with_cmp (fun c => set_loading true (set__fetchInFlight true c)) w)))))
      (_clearTimers
         (with_cmp (fun c => set_loading true (set__fetchInFlight true c)) w)).
Proof. intros H. unfold _fetch. rewrite H. reflexivity. Qed.

Lemma fetch_loading sig w :
  _fetchInFlight (cmp w) = false -> loading (cmp (_fetch sig w)) = true.
Proof.
  intros H. rewrite (fetch_start sig w H).
  destruct (busy_clearTimers
              (with_cmp (fun c => set_loading true (set__fetchInFlight true c)) w))
    as (A & _).
  exact A.
Qed.

Lemma refetch_loading w : loading (cmp (refetch w)) = true.
Proof. unfold refetch. apply fetch_loading. reflexivity. Qed.

(** X9: a pending refetch bypasses the debounce.  When a lookup settles
    without matches, or fails, while a refetch is pending, the same task
    sends one more lookup with the criteria of that moment: the latch and
    the pending signature are cleared, the spinner stays on, no timer is
    set and no countdown is left running. *)
Theorem pending_refetch_bypasses_debounce (w : World) (o : Outcome) :
  wf w -> settled_rows o = [] -> _needsRefetch (cmp w) = true ->
  let w' := fetch_resume o w in
  calls w' = calls w ++ [criteria (cmp w)]
  /\ outstanding w' !! next_call w = Some (criteria (cmp w))
  /\ _needsRefetch (cmp w') = false /\ _pendingSig (cmp w') = []
  /\ loading (cmp w') = true /\ no_countdown w'
  /\ (forall id t, timers w' !! id = Some t -> timers w !! id = Some t).
Proof.
  intros Hwf Hrows Hnr w'. subst w'.
  destruct (settle_empty_refetches o w Hrows Hnr) as (Hc & Ho & Hn & Hp).
  split; [exact Hc|]. split; [rewrite Ho; apply lookup_insert_eq|].
  split; [exact Hn|]. split; [exact Hp|].
  rewrite fetch_resume_unfold.
  set (w2 := with_cmp _ w).
  assert (Hwf2 : wf w2) by (apply wf_with_cmp; auto).
  assert (Hh : hasRows (cmp w2) = false).
  { unfold hasRows.
    replace (rows (cmp w2)) with (settled_rows o) by reflexivity.
    rewrite Hrows. reflexivity. }
  assert (Hn2 : _needsRefetch (cmp w2) = true) by exact Hnr.
  assert (Ht2 : timers w2 = timers w) by reflexivity.
  clearbody w2. rewrite (after_settle_refetch w2 Hh Hn2).
  split; [|split].
  - rewrite cmp_with_cmp, loading_lower_flag. apply refetch_loading.
  - apply no_countdown_with_cmp, no_countdown_refetch, Hwf2.
  - intros id t H. rewrite timers_with_cmp in H. rewrite <- Ht2.
    apply timers_after_refetch. exact H.
Qed.

Lemma pending_refetch_bypasses_debounce_witness :
  let w := step (SetCriterion Person.email (typed "b@wsr.nl"))
             first_lookup_outstanding in
  let w' := fetch_resume Rejected w in
  calls w' = calls w ++ [criteria (cmp w)]
  /\ outstanding w' !! next_call w = Some (criteria (cmp w))
  /\ _needsRefetch (cmp w') = false /\ _pendingSig (cmp w') = []
  /\ loading (cmp w') = true /\ no_countdown w'
  /\ (forall id t, timers w' !! id = Some t -> timers w !! id = Some t).
Proof.
  apply (pending_refetch_bypasses_debounce
           (step (SetCriterion Person.email (typed "b@wsr.nl"))
              first_lookup_outstanding) Rejected).
  - apply wf_step, wf_run, wf_init.
  - reflexivity.
  - reflexivity.
Defined.

(** X10: while a fetch is marked in flight the latest criteria win.  Two
    setter calls that leave input set no timer and send nothing; after them
    the one pending signature is that of the criteria after the second
    call, whatever the first had recorded. *)
Theorem pending_signature_latest_wins
  (w : World) (i1 i2 : nat) (v1 v2 : FlowInput) :
  _fetchInFlight (cmp w) = true ->
  let w1 := set_criterion i1 v1 w in
  let w2 := set_criterion i2 v2 w1 in
  _hasAnyInput (cmp w2) = true ->
  _needsRefetch (cmp w2) = true
  /\ _pendingSig (cmp w2) = _signature (cmp w2)
  /\ timers w2 = timers w /\ calls w2 = calls w
  /\ outstanding w2 = outstanding w.
Proof.
  intros Hfl w1 w2 Hin. subst w2.
  destruct (set_criterion_frame i1 v1 w) as (Hfl1 & Hc1 & Ho1 & _).
  fold w1 in Hfl1, Hc1, Ho1.
  assert (Hfl1' : _fetchInFlight (cmp w1) = true) by congruence.
  destruct (set_criterion_in_flight i2 v2 w1 Hfl1' Hin) as (Hn & Hp & Ht & Hc).
  destruct (set_criterion_frame i2 v2 w1) as (_ & _ & Ho2 & _).
  split; [exact Hn|]. split; [exact Hp|].
  assert (Ht1 : timers w1 = timers w).
  { subst w1. unfold set_criterion, _scheduleFetch, _hasAnyInput.
    cbn [with_cmp cmp criteria set_criteria _fetchInFlight]. rewrite Hfl.
    case_match; reflexivity. }
  repeat split; congruence.
Qed.

Lemma pending_signature_latest_wins_witness :
  let w := first_lookup_outstanding in
  let w1 := set_criterion Person.email (typed "b@wsr.nl") w in
  let w2 := set_criterion Person.phone (typed "010") w1 in
  _needsRefetch (cmp w2) = true
  /\ _pendingSig (cmp w2) = _signature (cmp w2)
  /\ timers w2 = timers w /\ calls w2 = calls w
  /\ outstanding w2 = outstanding w.
Proof.
  apply (pending_signature_latest_wins first_lookup_outstanding
           Person.email Person.phone (typed "b@wsr.nl") (typed "010")).
  - reflexivity.
  - vm_compute. reflexivity.
Defined.

(** X11: a lookup that settles with matches hands over to the user.  The
    rows are the extracted matches, the spinner is off, the empty state is
    not shown, no countdown is left running, and nothing is dispatched or
    sent. *)
Theorem matches_cancel_countdown (w : World) (o : Outcome) :
  wf w -> settled_rows o <> [] ->
  let w' := fetch_resume o w in
  rows (cmp w') = settled_rows o /\ hasRows (cmp w') = true
  /\ loading (cmp w') = false /\ showEmptyState (cmp w') = false
  /\ no_countdown w'
  /\ dispatched w' = dispatched w /\ calls w' = calls w.
Proof.
  intros Hwf Hrows w'. subst w'.
  pose proof (rows_fetch_resume o w) as Hr.
  assert (Hhas : hasRows (cmp (fetch_resume o w)) = true).
  { unfold hasRows. rewrite Hr. destruct (settled_rows o); congruence. }
  destruct (settle_matches_keeps_latch o w Hrows) as (Hc & _).
  destruct (fetch_resume_gate o w) as (Hd & _).
  split; [exact Hr|]. split; [exact Hhas|].
  assert (Hrest : loading (cmp (fetch_resume o w)) = false
                  /\ no_countdown (fetch_resume o w)).
  { rewrite fetch_resume_unfold.
    set (w2 := with_cmp _ w).
    assert (Hwf2 : wf w2) by (apply wf_with_cmp; auto).
    assert (Hh : hasRows (cmp w2) = true).
    { unfold hasRows.
      replace (rows (cmp w2)) with (settled_rows o) by reflexivity.
      destruct (settled_rows o); congruence. }
    assert (Hl2 : loading (cmp w2) = false) by reflexivity.
    clearbody w2. rewrite (after_settle_rows w2 Hh). split.
    - destruct (busy_clearTimers w2) as (A & _).
      rewrite cmp_with_cmp, loading_lower_flag. congruence.
    - apply no_countdown_with_cmp, no_countdown_clearTimers, Hwf2. }
  destruct Hrest as [Hload Hnone].
  split; [exact Hload|].
  split; [unfold showEmptyState; rewrite Hhas; reflexivity|].
  split; [exact Hnone|]. split; assumption.
Qed.

Lemma matches_cancel_countdown_witness :
  let o := Resolved (JObj [(str "records", JArr [JObj [(str "Id", JStr (str "001"))]])]) in
  let w' := fetch_resume o counting_down in
  rows (cmp w') = settled_rows o /\ hasRows (cmp w') = true
  /\ loading (cmp w') = false /\ showEmptyState (cmp w') = false
  /\ no_countdown w'
  /\ dispatched w' = dispatched counting_down /\ calls w' = calls counting_down.
Proof.
  apply (matches_cancel_countdown counting_down
           (Resolved (JObj [(str "records",
                             JArr [JObj [(str "Id", JStr (str "001"))]])]))).
  - apply wf_run, wf_run, wf_init.
  - discriminate.
Defined.

Lemma message_after_settle w : message (cmp (after_settle w)) = message (cmp w).
Proof. frame. Qed.

Lemma message_fetch_resume o w :
  message (cmp (fetch_resume o w)) = settled_message (controller w) o.
Proof.
  rewrite fetch_resume_unfold, cmp_with_cmp.
  change (message (cmp (after_settle ?x))) with (message (cmp (after_settle x))).
  transitivity (message (cmp (after_settle
    (with_cmp (fun c => set_loading false (set__hasCompletedFetchWithInputs true
       (set_message (settled_message (controller w) o)
          (set_rows (settled_rows o) c)))) w)))); [reflexivity|].
  rewrite message_after_settle. reflexivity.
Qed.

(** X12: the message shown after a settlement.  A resolved response
    contributes its [message] property when the response is an object and
    the property is a string; a response without the property, with a
    property of another type, or that is an array or a primitive, gives the
    empty message.  A rejected call gives the class's fixed error text and
    no rows. *)
Theorem message_after_settlement (w : World) (resp : JsVal) :
  message (cmp (fetch_resume (Resolved resp) w))
  = match resp with
    | JObj props =>
        match get_own props (str "message") with
        | JStr s => s
        | _ => []
        end
    | _ => []
    end
  /\ message (cmp (fetch_resume Rejected w)) = errorMessage (controller w)
  /\ rows (cmp (fetch_resume Rejected w)) = [].
Proof.
  rewrite !message_fetch_resume, rows_fetch_resume.
  split; [|split; reflexivity].
  unfold settled_message, message_of.
  destruct resp as [| |b|n|s|l|props]; try reflexivity.
  - destruct b; reflexivity.
  - simpl. destruct (n =? 0)%Z; reflexivity.
  - destruct s; reflexivity.
  - simpl. destruct (get_own props (str "message")) eqn:E; simpl;
      rewrite ?E; reflexivity.
Qed.

(** X13: extraction is idempotent: what [_extractArray] returns is an
    array, and extracting from it returns it unchanged. *)
Theorem extractArray_idempotent (resp a : JsVal) :
  _extractArray resp = Normal a -> _extractArray a = Normal a.
Proof.
  intros H. destruct (extractArray_total resp) as [l Hl].
  rewrite Hl in H. injection H as <-. reflexivity.
Qed.

Lemma extractArray_idempotent_witness :
  _extractArray (JArr [JNum 7]) = Normal (JArr [JNum 7]).
Proof.
  apply (extractArray_idempotent
           (JObj [(str "count", JNum 1); (str "hits", JArr [JNum 7])])
           (JArr [JNum 7])).
  vm_compute. reflexivity.
Defined.

(** ** Dispatch and expiry *)

Lemma clearTimers_handles w :
  _intervalId (cmp (_clearTimers w)) = None
  /\ _timeoutId (cmp (_clearTimers w)) = None.
Proof. rewrite clearTimers_cmp. auto. Qed.

(** X14: a dispatch cancels the countdown before the lookup leaves.  When
    [_fetch] runs while no fetch is marked in flight, it raises the flag
    and the spinner, clears both countdown handles so that no countdown
    timer stays live, and sends one lookup with the current criteria; when
    a fetch is marked in flight it changes nothing. *)
Theorem dispatch_cancels_countdown (w : World) (sig : jsstring) :
  wf w ->
  (_fetchInFlight (cmp w) = false ->
   let w' := _fetch sig w in
   _fetchInFlight (cmp w') = true /\ loading (cmp w') = true
   /\ _intervalId (cmp w') = None /\ _timeoutId (cmp w') = None
   /\ no_countdown w'
   /\ calls w' = calls w ++ [criteria (cmp w)]
   /\ outstanding w' !! next_call w = Some (criteria (cmp w)))
  /\ (_fetchInFlight (cmp w) = true -> _fetch sig w = w).
Proof.
  intros Hwf. split.
  - intros Hfl. cbv zeta.
    pose proof (fetch_calls sig w Hfl) as Hcalls.
    pose proof (fetch_loading sig w Hfl) as Hload.
    rewrite (fetch_start sig w Hfl) in *.
    set (w1 := with_cmp _ w) in *.
    assert (Hwf1 : wf w1) by (apply wf_with_cmp; auto).
    destruct (busy_clearTimers w1) as (_ & B & _).
    destruct (clearTimers_handles w1) as (Hi & Ht).
    split; [exact B|]. split; [exact Hload|].
    split; [exact Hi|]. split; [exact Ht|].
    split; [apply no_countdown_callApex, no_countdown_clearTimers, Hwf1|].
    split; [exact Hcalls|].
    cbn [callApex outstanding].
    replace (next_call (_clearTimers w1)) with (next_call w)
      by (unfold _clearTimers; repeat case_match; reflexivity).
    rewrite lookup_insert_eq. f_equal.
    rewrite map_or_empty, clearTimers_cmp. reflexivity.
  - intros Hfl. unfold _fetch. rewrite Hfl. reflexivity.
Qed.

Lemma dispatch_cancels_countdown_witness :
  let w := counting_down in
  let sig := str "a@wsr.nl||" in
  (_fetchInFlight (cmp w) = false ->
   let w' := _fetch sig w in
   _fetchInFlight (cmp w') = true /\ loading (cmp w') = true
   /\ _intervalId (cmp w') = None /\ _timeoutId (cmp w') = None
   /\ no_countdown w'
   /\ calls w' = calls w ++ [criteria (cmp w)]
   /\ outstanding w' !! next_call w = Some (criteria (cmp w)))
  /\ (_fetchInFlight (cmp w) = true -> _fetch sig w = w).
Proof.
  apply (dispatch_cancels_countdown counting_down (str "a@wsr.nl||")).
  apply wf_run, wf_run, wf_init.
Defined.

Lemma settle_empty_starts_countdown w o :
  wf w -> settled_rows o = [] -> _needsRefetch (cmp w) = false ->
  canNext (cmp w) = true -> countdown_started (fetch_resume o w).
Proof.
  intros Hwf Hrows Hnr Hcan.
  rewrite fetch_resume_unfold, Hrows.
  set (w2 := with_cmp _ w).
  assert (Hwf2 : wf w2) by (apply wf_with_cmp; auto).
  unfold after_settle, _startCountdownAndAutoNext.
  replace (hasRows (cmp w2)) with false by reflexivity.
  replace (_needsRefetch (cmp w2)) with false by (symmetry; exact Hnr).
  replace (_hasCompletedFetchWithInputs (cmp w2)) with true by reflexivity.
  cbn [negb orb].
  pose proof (wf_clearTimers w2 Hwf2) as Hwf3.
  pose proof (fun id t => clearTimers_no_countdown w2 id t Hwf2) as Hnone.
  assert (Hcan3 : canNext (cmp (_clearTimers w2)) = true)
    by (rewrite canNext_clearTimers; exact Hcan).
  assert (Hrows3 : rows (cmp (_clearTimers w2)) = [])
    by (rewrite rows_clearTimers; reflexivity).
  generalize dependent (_clearTimers w2). clear w2 Hwf2.
  intros w3 Hwf3 Hnone Hcan3 Hrows3. rewrite Hcan3. cbn [negb].
  exact (countdown_armed w3 Hwf3 Hnone Hrows3).
Qed.

Lemma no_countdown_tryNext_open w :
  wf w -> _autoNextFired (cmp w) = false -> no_countdown (_tryNext w).
Proof.
  intros Hwf Hf. unfold _tryNext. rewrite Hf.
  destruct (negb (canNext (cmp w))).
  - apply no_countdown_clearTimers, Hwf.
  - intros id t.
    apply (no_countdown_clearTimers (with_cmp (set__autoNextFired true) w)).
    apply wf_with_cmp; auto.
Qed.

(** X15: the automatic advance, end to end.  After a lookup settles
    without matches (or fails) with no refetch pending, NEXT permitted and
    the gate unfired, the expiry timeout does nothing while less than
    5000 ms have passed; once they have, its callback dispatches exactly
    one advance signal, sets the gate and leaves no countdown timer. *)
Theorem auto_advance_after_countdown (w : World) (o : Outcome) :
  wf w -> settled_rows o = [] -> _needsRefetch (cmp w) = false ->
  canNext (cmp w) = true -> _autoNextFired (cmp w) = false ->
  let w' := fetch_resume o w in
  exists t,
    _timeoutId (cmp w') = Some t
    /\ (forall ms, (0 <= ms < 5000)%Z ->
                   fire t (step (Elapse ms) w') = step (Elapse ms) w')
    /\ (forall ms, (5000 <= ms)%Z ->
          let w'' := fire t (step (Elapse ms) w') in
          advance_count w'' = S (advance_count w')
          /\ _autoNextFired (cmp w'') = true /\ no_countdown w'').
Proof.
  intros Hwf Hrows Hnr Hcan Hf w'. subst w'.
  destruct (settle_empty_starts_countdown w o Hwf Hrows Hnr Hcan)
    as (_ & _ & i & t & _ & _ & Ht & _ & _ & _ & _ & _ & Hearly & Hlate).
  pose proof (wf_fetch_resume o w Hwf) as Hwf'.
  destruct (fetch_resume_gate o w) as (_ & Hf').
  pose proof (actions_fetch_resume o w) as Ha'.
  generalize dependent (fetch_resume o w). intros w' Ht Hearly Hlate Hwf' Hf' Ha'.
  exists t. split; [exact Ht|]. split; [exact Hearly|].
  intros ms Hms. cbv zeta. rewrite (Hlate ms Hms).
  rewrite step_elapse by lia.
  set (x := clearTimer t (elapse ms w')).
  assert (Hwfx : wf x) by (apply wf_clearTimer, wf_elapse, Hwf').
  assert (Hfx : _autoNextFired (cmp x) = false) by (rewrite <- Hf; exact Hf').
  assert (Hcx : canNext (cmp x) = true).
  { rewrite <- Hcan. apply canNext_frame. exact Ha'. }
  assert (Hax : advance_count x = advance_count w') by reflexivity.
  clearbody x.
  destruct (tryNext_emits x Hfx Hcx) as [Hn Hfired].
  split; [rewrite Hn, Hax; reflexivity|]. split; [exact Hfired|].
  apply no_countdown_tryNext_open; assumption.
Qed.

Lemma auto_advance_after_countdown_witness :
  let w' := fetch_resume Rejected first_lookup_outstanding in
  exists t,
    _timeoutId (cmp w') = Some t
    /\ (forall ms, (0 <= ms < 5000)%Z ->
                   fire t (step (Elapse ms) w') = step (Elapse ms) w')
    /\ (forall ms, (5000 <= ms)%Z ->
          let w'' := fire t (step (Elapse ms) w') in
          advance_count w'' = S (advance_count w')
          /\ _autoNextFired (cmp w'') = true /\ no_countdown w'').
Proof.
  apply (auto_advance_after_countdown first_lookup_outstanding Rejected).
  - apply wf_run, wf_init.
  - reflexivity.
  - reflexivity.
  - vm_compute. reflexivity.
  - reflexivity.
Defined.
